(** * sdkmanager.ts: the [sdkmanager --list] report parser, in Rocq

    A shallow embedding of [src/services/sdkmanager.ts]: the version
    comparator [cmpVersions], the name splitter [parsePackageName], the
    report parser [parseList] and the presentation sorter [sort].

    Conventions of the embedding.
    - A JavaScript string is a [string]; a character stands for the code
      unit of the same number, so the strings covered are those over
      U+0000..U+00FF.
    - [undefined] is [None]: an array read out of range, a field that was
      never assigned.
    - A JavaScript number that the code computes here is an integer or
      NaN ([number]), and integers are exact. The source computes in
      doubles: it agrees with the model as long as nothing is rounded,
      which holds when every segment value is at most 2^52 in magnitude
      ([exact_version]); from 2^53 up the source rounds and the model
      does not, so what is stated about differences of such values is
      stated under that bound.
    - A thrown [TypeError] is a constructor of [result]; loops driven by a
      cursor take a step budget, and running out of it is a third
      constructor, shown unreachable below. *)

From Stdlib Require Import ZArith Ascii String List Lia Bool Permutation Sorted.
From stdpp Require Import base option list sorting gmap strings.

Local Open Scope string_scope.
Local Open Scope Z_scope.

(** ** Built-in string operations used by the source *)

Module Js.

Definition LF : ascii := "010"%char.
Definition CR : ascii := "013"%char.

(** [s.startsWith(p)] *)
Fixpoint startsWith (s p : string) {struct p} : bool :=
  match p with
  | EmptyString => true
  | String c p' =>
      match s with
      | EmptyString => false
      | String d s' => Ascii.eqb c d && startsWith s' p'
      end
  end.

(** [s.endsWith(p)]: [p] read backwards starts [s] read backwards. *)
Definition endsWith (s p : string) : bool :=
  startsWith (String.rev s) (String.rev p).

(** Puts a character in front of the segment under construction. *)
Definition push_front (c : ascii) (segs : list string) : list string :=
  match segs with
  | seg :: rest => String c seg :: rest
  | [] => [String c EmptyString]
  end.

(** [s.split(sep)] for a non-empty separator string: scanning from the
    left, every occurrence of [sep] closes the current segment and the
    scan resumes after it. [skip] counts the characters of the
    occurrence that are still to be passed over. *)
Fixpoint split_from (sep : string) (skip : nat) (s : string) : list string :=
  match s with
  | EmptyString => [EmptyString]
  | String c t =>
      match skip with
      | S k => split_from sep k t
      | O =>
          if startsWith s sep
          then EmptyString :: split_from sep (Nat.pred (String.length sep)) t
          else push_front c (split_from sep 0 t)
      end
  end.

Definition split (sep s : string) : list string := split_from sep 0 s.

(** [s.split(/\r?\n/)]: a line feed, alone or after a carriage return,
    ends a line. The pattern never matches the empty string, so the
    empty input gives one empty line. *)
Fixpoint split_lines (s : string) : list string :=
  match s with
  | EmptyString => [EmptyString]
  | String c t =>
      if Ascii.eqb c LF then EmptyString :: split_lines t
      else
        match t with
        | String d t' =>
            if Ascii.eqb c CR && Ascii.eqb d LF
            then EmptyString :: split_lines t'
            else push_front c (split_lines t)
        | EmptyString => [String c EmptyString]
        end
  end.

(** White space and line terminators, as [trim] and [parseInt] see them:
    TAB, LF, VT, FF, CR, SP and NBSP. *)
Definition isWhiteSpace (c : ascii) : bool :=
  let n := nat_of_ascii c in
  ((9 <=? n)%nat && (n <=? 13)%nat) || (n =? 32)%nat || (n =? 160)%nat.

Fixpoint trimStart (s : string) : string :=
  match s with
  | EmptyString => EmptyString
  | String c t => if isWhiteSpace c then trimStart t else s
  end.

Definition trimEnd (s : string) : string :=
  String.rev (trimStart (String.rev s)).

(** [s.trim()] *)
Definition trim (s : string) : string := trimEnd (trimStart s).

(** [s.toLowerCase()], character by character: A-Z and the capital
    letters of U+00C0..U+00DE (the multiplication sign apart). *)
Definition lower_char (c : ascii) : ascii :=
  let n := nat_of_ascii c in
  if ((65 <=? n)%nat && (n <=? 90)%nat)
     || ((192 <=? n)%nat && (n <=? 222)%nat && negb (n =? 215)%nat)
  then ascii_of_nat (n + 32) else c.

Fixpoint toLowerCase (s : string) : string :=
  match s with
  | EmptyString => EmptyString
  | String c t => String (lower_char c) (toLowerCase t)
  end.

(** [a < b] on strings: code unit by code unit. *)
Fixpoint lt_string (a b : string) : bool :=
  match a, b with
  | _, EmptyString => false
  | EmptyString, String _ _ => true
  | String c a', String d b' =>
      if (nat_of_ascii c <? nat_of_ascii d)%nat then true
      else if (nat_of_ascii d <? nat_of_ascii c)%nat then false
      else lt_string a' b'
  end.

(** [xs.join(sep)] *)
Fixpoint join (sep : string) (xs : list string) : string :=
  match xs with
  | [] => EmptyString
  | [x] => x
  | x :: rest => x ++ sep ++ join sep rest
  end.

(** Numbers: an integer or NaN. The source has doubles; an integer of
    magnitude up to 2^53 is one exactly, larger ones are rounded there
    and kept as they are here. *)
Inductive number := Num (z : Z) | NaN.

Definition digit (c : ascii) : option Z :=
  let n := nat_of_ascii c in
  if (48 <=? n)%nat && (n <=? 57)%nat then Some (Z.of_nat n - 48) else None.

Fixpoint digits_value (acc : Z) (s : string) : Z :=
  match s with
  | EmptyString => acc
  | String c t =>
      match digit c with
      | Some d => digits_value (acc * 10 + d) t
      | None => acc
      end
  end.

(** [parseInt(s, 10)]: leading white space, an optional sign, then the
    longest run of decimal digits; NaN when that run is empty. *)
Definition parseInt (s : string) : number :=
  let s1 := trimStart s in
  let '(sign, s2) :=
    match s1 with
    | String c t =>
        if Ascii.eqb c "-" then (-1, t)
        else if Ascii.eqb c "+" then (1, t)
        else (1, s1)
    | EmptyString => (1, s1)
    end in
  match s2 with
  | String c _ =>
      match digit c with
      | Some _ => Num (sign * digits_value 0 s2)
      | None => NaN
      end
  | EmptyString => NaN
  end.

(** [parseInt(v, 10)] of a value that may be [undefined]: the argument is
    first converted to a string, and no prefix of that text is a number. *)
Definition parseInt_value (v : option string) : number :=
  match v with
  | Some s => parseInt s
  | None => NaN
  end.

(** [x - y] *)
Definition sub (x y : number) : number :=
  match x, y with
  | Num a, Num b => Num (a - b)
  | _, _ => NaN
  end.

End Js.

(** ** The version comparator *)

(** The pattern [/(\.0+)+$/] anchored at both ends: does the whole of [s]
    consist of one or more groups, each a dot followed by one or more
    zeros? The state says what the next character may be. *)
Inductive strip_state := NeedDot | NeedZero | InZeros.

Fixpoint regExStrip0_whole (q : strip_state) (s : string) : bool :=
  match s with
  | EmptyString => match q with InZeros => true | _ => false end
  | String c t =>
      match q with
      | NeedDot => Ascii.eqb c "." && regExStrip0_whole NeedZero t
      | NeedZero => Ascii.eqb c "0" && regExStrip0_whole InZeros t
      | InZeros =>
          (Ascii.eqb c "0" && regExStrip0_whole InZeros t)
          || (Ascii.eqb c "." && regExStrip0_whole NeedZero t)
      end
  end.

(** [s.replace(regExStrip0, '')]: the leftmost position from which the
    rest of the string matches is where the string is cut. *)
Fixpoint replace_regExStrip0 (s : string) : string :=
  if regExStrip0_whole NeedDot s then EmptyString
  else
    match s with
    | EmptyString => EmptyString
    | String c t => String c (replace_regExStrip0 t)
    end.

(** The [for (let i = 0; i < l; i++)] loop of [cmpVersions]; [steps] is
    [l - i], the number of iterations left. *)
Fixpoint cmpVersions_loop (segmentsA segmentsB : list string)
    (i steps : nat) : Z :=
  match steps with
  | O => Z.of_nat (length segmentsA) - Z.of_nat (length segmentsB)
  | S steps' =>
      let diff := Js.sub (Js.parseInt_value (segmentsA !! i))
                         (Js.parseInt_value (segmentsB !! i)) in
      match diff with
      | Js.Num d =>
          if d =? 0 then cmpVersions_loop segmentsA segmentsB (S i) steps'
          else d
      | Js.NaN => cmpVersions_loop segmentsA segmentsB (S i) steps'
      end
  end.

Definition cmpVersions (a b : string) : Z :=
  let segmentsA := Js.split "." (replace_regExStrip0 a) in
  let segmentsB := Js.split "." (replace_regExStrip0 b) in
  let l := Nat.min (length segmentsA) (length segmentsB) in
  cmpVersions_loop segmentsA segmentsB 0 l.

(** ** Packages *)

Inductive InstallStates := Installed | Available | Updateable.

(** [class Package]. A field read before it was assigned is [None];
    parsing never assigns [details]. *)
Record Package := mkPackage {
  category : string;
  name : string;
  rawName : string;
  details : option (list string);
  description : option string;
  version : option string;
  state : InstallStates
}.

(** [names[1] ? names.slice(1).join('; ') : names[0]] paired with
    [names[0]]: the display name, then the category. A string is truthy
    when it is not empty. [split] never returns the empty array
    ([split_from_nonempty] below), so the last branch is dead. *)
Definition parsePackageName (name : string) : string * string :=
  let names := Js.split ";" name in
  match names with
  | names0 :: rest =>
      (match rest with
       | names1 :: _ =>
           if String.eqb names1 "" then names0 else Js.join "; " rest
       | [] => names0
       end, names0)
  | [] => (EmptyString, EmptyString)
  end.

(** ** Outcomes of running a piece of the source *)

Inductive result (A : Type) :=
| Ok (a : A)
| TypeError
| OutOfSteps.
Arguments Ok {A} a.
Arguments TypeError {A}.
Arguments OutOfSteps {A}.

#[global] Instance result_bind : MBind result :=
  fun A B k r =>
    match r with
    | Ok a => k a
    | TypeError => TypeError
    | OutOfSteps => OutOfSteps
    end.

(** ** parseList *)

(** [lines[pointer].split('| ').map(e => e.trim())] *)
Definition elements_of (line : string) : list string :=
  map Js.trim (Js.split "| " line).

(** The block that fills a fresh [Package] from [elements], the same in
    both sections but for the state. [elements[0]] is always there; were
    it not, [parsePackageName] would be handed [undefined] and its
    [name.split] would throw. *)
Definition new_Package (st : InstallStates) (elements : list string)
  : result Package :=
  match elements !! 0%nat with
  | None => TypeError
  | Some raw =>
      let '(nm, cat) := parsePackageName raw in
      Ok {| category := cat; name := nm; rawName := raw; details := None;
            description := elements !! 2%nat; version := elements !! 1%nat;
            state := st |}
  end.

(** The first loop: look for the line ending in the installed header and
    stand three lines below it. *)
Fixpoint skip_loop (lines : list string) (pointer steps : nat) : result nat :=
  match steps with
  | O => OutOfSteps
  | S steps' =>
      if (pointer <? length lines)%nat then
        match lines !! pointer with
        | None => TypeError
        | Some line =>
            if Js.endsWith line "Installed packages:" then Ok (pointer + 3)%nat
            else skip_loop lines (pointer + 1)%nat steps'
        end
      else Ok pointer
  end.

(** The second loop: the installed section. After a blank line the
    cursor moves on and the line under it is read without a new bounds
    test; reading [startsWith] off [undefined] throws. *)
Fixpoint installed_loop (lines : list string) (packages : list Package)
    (pointer steps : nat) : result (list Package * nat) :=
  match steps with
  | O => OutOfSteps
  | S steps' =>
      if (pointer <? length lines)%nat then
        match lines !! pointer with
        | None => TypeError
        | Some line0 =>
            let pointer :=
              if String.eqb line0 "" then (pointer + 1)%nat else pointer in
            match lines !! pointer with
            | None => TypeError
            | Some line =>
                if Js.startsWith line "Available Packages:"
                then Ok (packages, (pointer + 3)%nat)
                else
                  p ← new_Package Installed (elements_of line);
                  installed_loop lines (packages ++ [p])%list (pointer + 1)%nat steps'
            end
        end
      else Ok (packages, pointer)
  end.

(** What the third loop does with the elements of one data line: append
    an unknown package, or compare versions with the first entry of that
    [rawName]. [cmpVersions] calls [replace] on both arguments, which
    throws on [undefined]. *)
Definition merge_elements (packages : list Package) (elements : list string)
  : result (list Package) :=
  match elements !! 0%nat with
  | None => TypeError
  | Some raw =>
      match list_find (fun pkg => rawName pkg = raw) packages with
      | None =>
          p ← new_Package Available elements;
          Ok (packages ++ [p])%list
      | Some (index, p) =>
          match version p, elements !! 1%nat with
          | Some pv, Some rv =>
              if cmpVersions pv rv <? 0 then
                Ok (<[index := {| category := category p; name := name p;
                                  rawName := rawName p; details := details p;
                                  description := description p;
                                  version := Some (pv ++ "(" ++ rv ++ ")");
                                  state := Updateable |}]> packages)
              else Ok packages
          | _, _ => TypeError
          end
      end
  end.

(** The third loop: the available section. On a blank line the body adds
    one to the cursor and [continue]s, and the loop header adds one
    more. *)
Fixpoint available_loop (lines : list string) (packages : list Package)
    (pointer steps : nat) : result (list Package * nat) :=
  match steps with
  | O => OutOfSteps
  | S steps' =>
      if (pointer <? length lines)%nat then
        match lines !! pointer with
        | None => TypeError
        | Some line =>
            if String.eqb line "" then
              available_loop lines packages (pointer + 1 + 1)%nat steps'
            else if Js.startsWith line "Available Updates:"
            then Ok (packages, (pointer + 3)%nat)
            else
              packages' ← merge_elements packages (elements_of line);
              available_loop lines packages' (pointer + 1)%nat steps'
        end
      else Ok (packages, pointer)
  end.

(** Every iteration moves the cursor forward, so no loop runs more often
    than there are lines; one more step sees the cursor at the end. *)
Definition budget (lines : list string) : nat := S (length lines).

(** The cursor and catalog after the first two loops. *)
Definition installed_section (lines : list string)
  : result (list Package * nat) :=
  pointer ← skip_loop lines 0%nat (budget lines);
  installed_loop lines [] pointer (budget lines).

Definition parseList (stdout : string) : result (list Package) :=
  let lines := Js.split_lines stdout in
  '(packages, pointer) ← installed_section lines;
  '(packages, _) ← available_loop lines packages pointer (budget lines);
  Ok packages.

(** ** sort *)

(** The comparator handed to [Array.prototype.sort]. [order] is [None]
    when the argument is left out, and then stands for ['desc']. *)
Definition sort_compare (order : option string) (a b : Package) : Z :=
  let order := default "desc" order in
  let nameA := Js.toLowerCase (rawName a) in
  let nameB := Js.toLowerCase (rawName b) in
  (if Js.lt_string nameA nameB then -1 else 1)
  * (if String.eqb order "asc" then 1 else -1).

(** [Array.prototype.sort] is a built-in, not code of this repository. It
    is modelled by insertion sort: each element in turn is placed before
    the first element of the sorted part that the comparator puts after
    it. *)
Fixpoint insert_by {A : Type} (cmp : A -> A -> Z) (x : A) (l : list A)
  : list A :=
  match l with
  | [] => [x]
  | y :: l' => if cmp x y <? 0 then x :: y :: l' else y :: insert_by cmp x l'
  end.

Definition Array_sort {A : Type} (cmp : A -> A -> Z) (l : list A) : list A :=
  fold_left (fun sorted x => insert_by cmp x sorted) l [].

(** Arrays are objects: a reference into the store of array contents.
    [sort] writes the sorted contents back into the array it was given
    and returns that same reference. *)
Abbreviation store := (gmap nat (list Package)).

Definition sort (h : store) (packages : nat) (order : option string)
  : result (store * nat) :=
  match h !! packages with
  | None => TypeError
  | Some contents =>
      Ok (<[packages := Array_sort (sort_compare order) contents]> h, packages)
  end.

(** A report text from its lines. *)
Definition report (lines : list string) : string :=
  Js.join (String Js.LF EmptyString) lines.

(** ** Orders on packages *)

(** The sort key, and the two orders on packages: [a] may stand before
    [b] when its key is not greater (ascending), not smaller
    (descending). *)
Definition sort_key (p : Package) : string := Js.toLowerCase (rawName p).
Definition ascending (a b : Package) : Prop :=
  Js.lt_string (sort_key b) (sort_key a) = false.
Definition descending (a b : Package) : Prop :=
  Js.lt_string (sort_key a) (sort_key b) = false.

Definition sorted_as (order : option string) : Package -> Package -> Prop :=
  if decide (order = Some "asc") then ascending else descending.

Definition named (raw : string) : Package :=
  {| category := raw; name := raw; rawName := raw; details := None;
     description := None; version := None; state := Available |}.

(** ** The version comparator as described *)

(** The comparator as section 4.4 of the specification words it, on the
    dot-separated segments of the two versions. *)
Module Comparator.

Fixpoint all_zeros (s : string) : bool :=
  match s with
  | EmptyString => true
  | String c t => Ascii.eqb c "0" && all_zeros t
  end.

(** A segment [.0], [.00], ...: zeros, and at least one. *)
Definition zero_segment (s : string) : bool :=
  match s with
  | EmptyString => false
  | String _ _ => all_zeros s
  end.

(** Step 1, on the segments after the first dot: the trailing run of
    zero segments goes. *)
Fixpoint strip_trailing (segs : list string) : list string :=
  match segs with
  | [] => []
  | s :: rest =>
      match strip_trailing rest with
      | [] => if zero_segment s then [] else [s]
      | kept => s :: kept
      end
  end.

(** Steps 1 and 2. What stands before the first dot is always kept. *)
Definition segments (v : string) : list string :=
  match Js.split "." v with
  | first :: rest => first :: strip_trailing rest
  | [] => []
  end.

(** Step 3: the numeric differences, segment by segment, up to the
    shorter length. *)
Definition differences (sa sb : list string) : list Js.number :=
  zip_with (fun a b => Js.sub (Js.parseInt a) (Js.parseInt b)) sa sb.

(** The first difference that is a number other than zero. *)
Fixpoint first_nonzero (ds : list Js.number) : option Z :=
  match ds with
  | [] => None
  | Js.Num d :: ds' => if d =? 0 then first_nonzero ds' else Some d
  | Js.NaN :: ds' => first_nonzero ds'
  end.

(** Steps 3 and 4. *)
Definition compare (sa sb : list string) : Z :=
  match first_nonzero (differences sa sb) with
  | Some d => d
  | None => Z.of_nat (length sa) - Z.of_nat (length sb)
  end.

End Comparator.

(** ** Fields without a delimiter *)

(** [s.includes(p)]: [p] occurs somewhere in [s]. *)
Fixpoint includes (s p : string) : bool :=
  Js.startsWith s p
  || match s with
     | EmptyString => false
     | String _ t => includes t p
     end.

(** ** Reports used as concrete inputs *)

Definition header_row : string := "  Path | Version | Description | Location".
Definition rule_row : string := "  ------- | ------- | ------- | -------".

(** An SDK with one installed package and no other section; the text ends
    with a line break, so its last line is empty. *)
Definition installed_only_report : string :=
  report ["Installed packages:"; header_row; rule_row;
          "  tools | 26.1.1 | Android SDK Tools | tools/"; ""].

(** An available section with a blank line between two of its rows. *)
Definition blank_in_available_report : string :=
  report ["Installed packages:"; header_row; rule_row;
          "  tools | 26.1.1 | Android SDK Tools | tools/"; "";
          "Available Packages:"; header_row; rule_row;
          "  emulator | 27.1.12 | Android Emulator"; "";
          "  ndk-bundle | 16.1 | NDK";
          "  patcher;v4 | 1 | SDK Patch Applier v4"].

(** A report that starts at the available section. *)
Definition available_only_report : string :=
  report ["Available Packages:"; header_row; rule_row;
          "  emulator | 27.1.12 | Android Emulator"].

(** A report with one installed row and one available row. *)
Definition merge_report (installed available : string) : string :=
  report ["Installed packages:"; header_row; rule_row; installed;
          "Available Packages:"; header_row; rule_row; available].

(** An installed entry [a;x] at version [v]. *)
Definition installed_a_x (v : string) : Package :=
  {| category := "a"; name := "x"; rawName := "a;x"; details := None;
     description := Some "desc"; version := Some v; state := Installed |}.

(** Two installed rows of the same name. *)
Definition twice_installed_report : string :=
  report ["Installed packages:"; header_row; rule_row;
          "  tools | 26.1.1 | Android SDK Tools | tools/";
          "  tools | 26.1.1 | Android SDK Tools | tools/"].

(** An installed row cut short before its version, and the same package
    in the available section. *)
Definition cut_row_report : string :=
  merge_report "  tools" "  tools | 26.1.1 | Android SDK Tools".

(** ** More of the comparator *)

(** The segments [cmpVersions] compares. *)
Definition version_segments (v : string) : list string :=
  Js.split "." (replace_regExStrip0 v).

(** A number that a double holds exactly, with room for the difference
    of two of them to be exact as well. *)
Definition exact_number (n : Js.number) : Prop :=
  match n with
  | Js.Num z => Z.abs z <= 2 ^ 52
  | Js.NaN => True
  end.

(** A version whose compared segments are not numbers or are numbers of
    that size: on such versions the integer arithmetic of the model is
    the double arithmetic of the source. *)
Definition exact_version (v : string) : Prop :=
  Forall (fun seg => exact_number (Js.parseInt seg)) (version_segments v).

(** A version all of whose compared segments start with a number. *)
Definition numeric_version (v : string) : Prop :=
  Forall (fun seg => Js.parseInt seg <> Js.NaN) (version_segments v).

(** ** More of the catalog *)

(** The entry [p] after the available loop has marked it: the two
    assignments of lines 110 and 111. *)
Definition marked (p : Package) (pv rv : string) : Package :=
  {| category := category p; name := name p; rawName := rawName p;
     details := details p; description := description p;
     version := Some (pv ++ "(" ++ rv ++ ")"); state := Updateable |}.

(** [q] is the entry [p] as a later pass may have left it: the same
    package, untouched or marked. *)
Definition same_package (p q : Package) : Prop :=
  rawName q = rawName p /\ name q = name p /\ category q = category p
  /\ description q = description p /\ details q = details p
  /\ (q = p \/ state q = Updateable).

(** [checkDoneAsync], given the text that [getListAsync] captured. *)
Definition checkDoneAsync (std_out : string) : result bool :=
  packages ← parseList std_out;
  Ok (1 <=? length packages)%nat.

(** ** More of the cursor *)

(** [parseList] with a step budget of one's choice for its three loops. *)
Definition parseList_steps (steps : nat) (stdout : string)
  : result (list Package) :=
  let lines := Js.split_lines stdout in
  pointer ← skip_loop lines 0%nat steps;
  '(packages, pointer) ← installed_loop lines [] pointer steps;
  '(packages, _) ← available_loop lines packages pointer steps;
  Ok packages.

(** The outcome of a loop run on lines that stand [n] lines further down:
    the cursor it returns is [n] higher. *)
Definition lower_cursor (n : nat) (r : result nat) : result nat :=
  match r with
  | Ok pointer => Ok (n + pointer)%nat
  | TypeError => TypeError
  | OutOfSteps => OutOfSteps
  end.

Definition lower_catalog_cursor (n : nat) (r : result (list Package * nat))
  : result (list Package * nat) :=
  match r with
  | Ok (packages, pointer) => Ok (packages, (n + pointer)%nat)
  | TypeError => TypeError
  | OutOfSteps => OutOfSteps
  end.

(** A line of text: no carriage return and no line feed in it. *)
Fixpoint no_line_break (s : string) : bool :=
  match s with
  | EmptyString => true
  | String c t =>
      negb (Ascii.eqb c Js.LF) && negb (Ascii.eqb c Js.CR) && no_line_break t
  end.

Definition CRLF : string := String Js.CR (String Js.LF EmptyString).

(** ** checkLicenseAsync *)

(** [/^android-sdk-license$/.test(file)]: the text matches from the
    start of [file], and the match ends where [file] ends. *)
Definition test_license (file : string) : bool :=
  Js.startsWith file "android-sdk-license"
  && (String.length file =? String.length "android-sdk-license")%nat.

(** [checkLicenseAsync], given what [readdir] settled with: the names in
    the license directory, or [None] for a rejection, which the [catch]
    turns into the empty list. [findIndex(...) >= 0] asks whether some
    name passes the test. *)
Definition checkLicenseAsync (readdir : option (list string)) : bool :=
  let files := default [] readdir in
  match list_find (fun file => test_license file = true) files with
  | Some _ => true
  | None => false
  end.

(** * Properties *)

(** ** The loops stay within their budget *)

Lemma split_from_nonempty sep skip s : Js.split_from sep skip s <> [].
Proof.
  revert skip; induction s as [|c t IH]; intros skip;
    cbn [Js.split_from]; [done|].
  destruct skip; [|apply IH].
  destruct (Js.startsWith _ _); [done|].
  specialize (IH 0%nat). destruct (Js.split_from sep 0 t); done.
Qed.

Lemma split_lines_nonempty s : Js.split_lines s <> [].
Proof.
  induction s as [|c t IH]; simpl; [done|].
  destruct (Ascii.eqb c Js.LF); [done|].
  destruct t as [|d t']; [done|].
  destruct (_ && _); [done|].
  destruct (Js.split_lines (String d t')); done.
Qed.

Lemma skip_loop_in_budget lines pointer steps :
  (length lines - pointer < steps)%nat ->
  skip_loop lines pointer steps <> OutOfSteps.
Proof.
  revert pointer; induction steps as [|steps IH]; intros pointer Hlt; [lia|].
  cbn [skip_loop]. destruct (Nat.ltb_spec pointer (length lines)); [|done].
  destruct (lines !! pointer); [|done].
  destruct (Js.endsWith _ _); [done|]. apply IH; lia.
Qed.

Lemma installed_loop_in_budget lines packages pointer steps :
  (length lines - pointer < steps)%nat ->
  installed_loop lines packages pointer steps <> OutOfSteps.
Proof.
  revert packages pointer; induction steps as [|steps IH];
    intros packages pointer Hlt; [lia|].
  cbn [installed_loop].
  destruct (Nat.ltb_spec pointer (length lines)); [|done].
  destruct (lines !! pointer) as [line0|]; [|done].
  destruct (lines !! _) as [line|]; [|done].
  destruct (Js.startsWith _ _); [done|].
  unfold mbind, result_bind.
  destruct (new_Package Installed (elements_of line)) as [p| |] eqn:Hp;
    [|done|].
  - apply IH. destruct (String.eqb line0 ""); lia.
  - unfold new_Package in Hp. destruct (_ !! 0%nat); [|done].
    destruct (parsePackageName _); done.
Qed.

Lemma merge_elements_in_budget packages elements :
  merge_elements packages elements <> OutOfSteps.
Proof.
  unfold merge_elements, new_Package, mbind, result_bind.
  destruct (elements !! 0%nat) as [raw|]; [|done].
  destruct (list_find _ packages) as [[index p]|].
  - destruct (version p), (elements !! 1%nat); try done.
    destruct (_ <? 0); done.
  - destruct (parsePackageName raw); done.
Qed.

Lemma available_loop_in_budget lines packages pointer steps :
  (length lines - pointer < steps)%nat ->
  available_loop lines packages pointer steps <> OutOfSteps.
Proof.
  revert packages pointer; induction steps as [|steps IH];
    intros packages pointer Hlt; [lia|].
  cbn [available_loop].
  destruct (Nat.ltb_spec pointer (length lines)); [|done].
  destruct (lines !! pointer) as [line|]; [|done].
  destruct (String.eqb line ""); [apply IH; lia|].
  destruct (Js.startsWith _ _); [done|].
  unfold mbind, result_bind.
  destruct (merge_elements packages (elements_of line)) as [pk| |] eqn:Hm;
    [apply IH; lia|done|].
  by apply merge_elements_in_budget in Hm.
Qed.

(** [parseList] always comes to an end: it returns a catalog or throws. *)
Lemma parseList_terminates stdout : parseList stdout <> OutOfSteps.
Proof.
  unfold parseList, installed_section, budget, mbind, result_bind.
  set (lines := Js.split_lines stdout).
  destruct (skip_loop lines 0 (S (length lines))) as [pointer| |] eqn:H1;
    [|done|].
  2:{ apply skip_loop_in_budget in H1; [done|lia]. }
  destruct (installed_loop lines [] pointer (S (length lines)))
    as [[packages pointer']| |] eqn:H2; [|done|].
  2:{ apply installed_loop_in_budget in H2; [done|lia]. }
  destruct (available_loop lines packages pointer' (S (length lines)))
    as [[packages' pointer'']| |] eqn:H3; [done|done|].
  apply available_loop_in_budget in H3; [done|lia].
Qed.

Lemma parseList_empty : parseList "" = Ok [].
Proof. reflexivity. Qed.

(** ** The cursor through the three sections *)

(** C1. [parseList] is claimed to return a catalog for every input. It
    does not: when the installed section ends in a blank line that is the
    last line of the text, the second loop steps past the end and reads
    [startsWith] off [undefined], so the call throws a [TypeError]. *)
Theorem parseList_throws_after_final_blank_line :
  parseList installed_only_report = TypeError.
Proof. vm_compute. reflexivity. Qed.

(** A second way to the same end: an entry without a version meets an
    available row of its name, and [cmpVersions] calls [replace] on
    [undefined]. *)
Example parseList_throws_on_missing_version :
  parseList cut_row_report = TypeError.
Proof. vm_compute. reflexivity. Qed.

(** C2. A blank line in the available section is claimed to cost only
    itself. The third loop passes over the blank line and over the line
    after it: of the three rows of this report's available section, the
    one that follows the blank line ([ndk-bundle]) is not in the
    catalog. *)
Theorem parseList_drops_row_after_blank_line :
  parseList blank_in_available_report
  = Ok [ {| category := "tools"; name := "tools"; rawName := "tools";
            details := None; description := Some "Android SDK Tools";
            version := Some "26.1.1"; state := Installed |};
         {| category := "emulator"; name := "emulator"; rawName := "emulator";
            details := None; description := Some "Android Emulator";
            version := Some "27.1.12"; state := Available |};
         {| category := "patcher"; name := "v4"; rawName := "patcher;v4";
            details := None; description := Some "SDK Patch Applier v4";
            version := Some "1"; state := Available |} ].
Proof. vm_compute. reflexivity. Qed.

(** The step behind it: on a blank line the cursor moves by two. *)
Lemma available_loop_blank lines packages pointer steps :
  lines !! pointer = Some "" ->
  available_loop lines packages pointer (S steps)
  = available_loop lines packages (pointer + 2)%nat steps.
Proof.
  intros Hline. cbn [available_loop]. rewrite Hline.
  apply lookup_lt_Some in Hline.
  destruct (Nat.ltb_spec pointer (length lines)); [|lia].
  simpl. f_equal. lia.
Qed.

Lemma skip_loop_no_header lines pointer steps :
  Forall (fun line => Js.endsWith line "Installed packages:" = false) lines ->
  (pointer <= length lines)%nat ->
  (length lines - pointer < steps)%nat ->
  skip_loop lines pointer steps = Ok (length lines).
Proof.
  intros Hno. revert pointer.
  induction steps as [|steps IH]; intros pointer Hle Hlt; [lia|].
  cbn [skip_loop].
  destruct (Nat.ltb_spec pointer (length lines)) as [Hin|Hout].
  - destruct (lookup_lt_is_Some_2 lines pointer Hin) as [line Hline].
    rewrite Hline.
    rewrite Forall_forall in Hno.
    rewrite (Hno line) by (eapply list_elem_of_lookup_2; eauto).
    apply IH; lia.
  - f_equal. lia.
Qed.

Lemma installed_loop_at_end lines packages pointer steps :
  (length lines <= pointer)%nat ->
  installed_loop lines packages pointer (S steps) = Ok (packages, pointer).
Proof.
  intros Hle. cbn [installed_loop].
  destruct (Nat.ltb_spec pointer (length lines)); [lia|done].
Qed.

Lemma available_loop_at_end lines packages pointer steps :
  (length lines <= pointer)%nat ->
  available_loop lines packages pointer (S steps) = Ok (packages, pointer).
Proof.
  intros Hle. cbn [available_loop].
  destruct (Nat.ltb_spec pointer (length lines)); [lia|done].
Qed.

(** C3, the claim as it stands, on a report that starts at the available
    section: no line ends with the installed header, and the catalog has
    no record at all, so none in state [Available]. *)
Lemma parseList_available_only_is_empty :
  Forall (fun line => Js.endsWith line "Installed packages:" = false)
         (Js.split_lines available_only_report)
  /\ parseList available_only_report = Ok []
  /\ ~ (exists packages p,
          parseList available_only_report = Ok packages
          /\ p ∈ packages /\ state p = Available).
Proof.
  split; [vm_compute; repeat constructor|].
  split; [vm_compute; reflexivity|].
  intros (packages & p & Hrun & Hin & _).
  vm_compute in Hrun. injection Hrun as <-. by apply elem_of_nil in Hin.
Qed.

(** C3, amended. If no line of the input ends with
    ["Installed packages:"], the first loop leaves the cursor at the end
    of the lines, neither section loop runs, and [parseList] returns the
    empty catalog, whatever else the input contains. *)
Theorem parseList_without_installed_header stdout :
  Forall (fun line => Js.endsWith line "Installed packages:" = false)
         (Js.split_lines stdout) ->
  parseList stdout = Ok [].
Proof.
  intros Hno. unfold parseList, installed_section, budget.
  set (lines := Js.split_lines stdout) in *.
  rewrite (skip_loop_no_header lines 0) by (auto; lia).
  cbn [mbind result_bind].
  rewrite installed_loop_at_end by lia. cbn [mbind result_bind].
  rewrite available_loop_at_end by lia. reflexivity.
Qed.

Lemma parseList_without_installed_header_witness :
  parseList available_only_report = Ok [].
Proof.
  apply (parseList_without_installed_header available_only_report).
  vm_compute. repeat constructor.
Defined.

(** ** sort *)

(** Order of code units on strings. *)
Lemma lt_string_asym a b :
  Js.lt_string a b = true -> Js.lt_string b a = false.
Proof.
  revert b; induction a as [|c a IH]; intros [|d b]; simpl; try done.
  destruct (Nat.ltb_spec (nat_of_ascii c) (nat_of_ascii d)),
           (Nat.ltb_spec (nat_of_ascii d) (nat_of_ascii c));
    try done; try lia.
  apply IH.
Qed.

Lemma not_lt_string_trans a b c :
  Js.lt_string b a = false -> Js.lt_string c b = false ->
  Js.lt_string c a = false.
Proof.
  revert b c; induction a as [|x a IH]; intros [|y b] [|z c]; simpl;
    try done.
  destruct (Nat.ltb_spec (nat_of_ascii y) (nat_of_ascii x)),
           (Nat.ltb_spec (nat_of_ascii x) (nat_of_ascii y)),
           (Nat.ltb_spec (nat_of_ascii z) (nat_of_ascii y)),
           (Nat.ltb_spec (nat_of_ascii y) (nat_of_ascii z)),
           (Nat.ltb_spec (nat_of_ascii z) (nat_of_ascii x)),
           (Nat.ltb_spec (nat_of_ascii x) (nat_of_ascii z));
    try done; try lia.
  apply IH.
Qed.

Section Insertion.
Context {A : Type} (cmp : A -> A -> Z) (R : A -> A -> Prop).
Hypothesis R_trans : forall a b c, R a b -> R b c -> R a c.
Hypothesis cmp_before : forall x y, cmp x y < 0 -> R x y.
Hypothesis cmp_after : forall x y, ~ cmp x y < 0 -> R y x.

Lemma insert_by_Permutation x l : Permutation (x :: l) (insert_by cmp x l).
Proof.
  induction l as [|y l IH]; simpl; [done|].
  destruct (Z.ltb_spec (cmp x y) 0); [done|].
  rewrite perm_swap. by constructor.
Qed.

Lemma insert_by_StronglySorted x l :
  StronglySorted R l -> StronglySorted R (insert_by cmp x l).
Proof.
  induction 1 as [|y l Hsorted IH Hall]; simpl.
  - repeat constructor.
  - destruct (Z.ltb_spec (cmp x y) 0) as [Hlt|Hge].
    + constructor; [by constructor|].
      constructor; [by apply cmp_before|].
      eapply Forall_impl; [exact Hall|].
      intros z Hz. eapply R_trans; [|exact Hz]. by apply cmp_before.
    + constructor; [exact IH|].
      rewrite <- (insert_by_Permutation x l).
      constructor; [apply cmp_after; lia|exact Hall].
Qed.

Lemma fold_insert_by_Permutation l sorted :
  Permutation (sorted ++ l)%list
    (fold_left (fun sorted x => insert_by cmp x sorted) l sorted).
Proof.
  revert sorted; induction l as [|x l IH]; intros sorted; simpl.
  - by rewrite app_nil_r.
  - rewrite <- IH, <- insert_by_Permutation. simpl.
    symmetry. apply Permutation_middle.
Qed.

Lemma fold_insert_by_StronglySorted l sorted :
  StronglySorted R sorted ->
  StronglySorted R (fold_left (fun sorted x => insert_by cmp x sorted) l sorted).
Proof.
  revert sorted; induction l as [|x l IH]; intros sorted Hs; simpl; [done|].
  apply IH. by apply insert_by_StronglySorted.
Qed.
End Insertion.

(** C4, the claim as it stands: [sort] leaves the array it was given
    unchanged. On the array [b, A] it does not; after the call the array
    itself holds [A, b]. *)
Lemma sort_changes_its_argument :
  let h : store := {[ 0%nat := [named "b"; named "A"] ]} in
  exists h',
    sort h 0%nat (Some "asc") = Ok (h', 0%nat)
    /\ h' !! 0%nat = Some [named "A"; named "b"]
    /\ h' !! 0%nat <> h !! 0%nat.
Proof.
  eexists. split; [reflexivity|]. split; [reflexivity|].
  vm_compute. discriminate.
Qed.

(** C4, amended. [sort] reorders the array it is given in place and
    returns that same array: afterwards the array holds the same
    packages, each with its fields as before, in ascending order of the
    lower-cased [rawName] when the flag is ['asc'] and in descending
    order for any other flag, a missing one included. Nothing else in
    the store changes. *)
Theorem sort_in_place (h : store) (packages : nat) (order : option string)
    (contents : list Package) :
  h !! packages = Some contents ->
  exists sorted,
    sort h packages order = Ok (<[packages := sorted]> h, packages)
    /\ Permutation contents sorted
    /\ StronglySorted (sorted_as order) sorted.
Proof.
  intros Hlookup. exists (Array_sort (sort_compare order) contents).
  unfold sort. rewrite Hlookup. split; [done|]. split.
  - apply (fold_insert_by_Permutation _ contents []).
  - apply fold_insert_by_StronglySorted; [| | |constructor];
      unfold sorted_as, sort_compare, ascending, descending, sort_key;
      destruct (decide (order = Some "asc")) as [->|Hne]; simpl.
    + intros a b c Hab Hbc. eapply not_lt_string_trans; eauto.
    + intros a b c Hab Hbc. eapply not_lt_string_trans; eauto.
    + intros x y. destruct (Js.lt_string _ _) eqn:Hlt; [|lia].
      intros _. by apply lt_string_asym.
    + intros x y.
      replace (default "desc" order =? "asc")%string with false.
      2:{ symmetry. apply String.eqb_neq. destruct order; simpl; congruence. }
      destruct (Js.lt_string _ _) eqn:Hlt; [lia|done].
    + intros x y. destruct (Js.lt_string _ _) eqn:Hlt; [lia|done].
    + intros x y.
      replace (default "desc" order =? "asc")%string with false.
      2:{ symmetry. apply String.eqb_neq. destruct order; simpl; congruence. }
      destruct (Js.lt_string _ _) eqn:Hlt; [|lia].
      intros _. by apply lt_string_asym.
Qed.

Lemma sort_in_place_witness :
  exists sorted,
    sort {[ 7%nat := [named "b"; named "A"; named "c"] ]} 7%nat (Some "asc")
    = Ok (<[7%nat := sorted]> {[ 7%nat := [named "b"; named "A"; named "c"] ]},
          7%nat)
    /\ Permutation [named "b"; named "A"; named "c"] sorted
    /\ StronglySorted (sorted_as (Some "asc")) sorted.
Proof.
  apply (sort_in_place {[ 7%nat := [named "b"; named "A"; named "c"] ]} 7%nat
           (Some "asc") [named "b"; named "A"; named "c"]).
  reflexivity.
Defined.

Example sort_asc :
  map rawName (Array_sort (sort_compare (Some "asc"))
                 [named "b"; named "A"; named "c"]) = ["A"; "b"; "c"].
Proof. reflexivity. Qed.

Example sort_default :
  map rawName (Array_sort (sort_compare None)
                 [named "b"; named "A"; named "c"]) = ["c"; "b"; "A"].
Proof. reflexivity. Qed.

(** ** Merging the available section into the catalog *)

(** A data line of the available section costs one iteration, which
    hands its elements to [merge_elements]. *)
Lemma available_loop_data_line lines packages pointer steps line :
  lines !! pointer = Some line ->
  line <> "" ->
  Js.startsWith line "Available Updates:" = false ->
  available_loop lines packages pointer (S steps)
  = packages' ← merge_elements packages (elements_of line);
    available_loop lines packages' (pointer + 1)%nat steps.
Proof.
  intros Hline Hne Hhdr. cbn [available_loop]. rewrite Hline.
  apply lookup_lt_Some in Hline.
  destruct (Nat.ltb_spec pointer (length lines)); [|lia].
  apply String.eqb_neq in Hne. by rewrite Hne, Hhdr.
Qed.

Lemma find_first_by_rawName (packages : list Package) raw index p :
  packages !! index = Some p ->
  rawName p = raw ->
  (forall j q, (j < index)%nat -> packages !! j = Some q -> rawName q <> raw) ->
  list_find (fun pkg => rawName pkg = raw) packages = Some (index, p).
Proof.
  intros Hp Hraw Hfirst. apply list_find_Some. repeat split; [done..|].
  intros j q Hq Hj. by apply (Hfirst j q).
Qed.

(** C6. An available row whose [rawName] is that of a catalog entry (the
    first one of that name) and whose version the comparator puts above
    the entry's version: the entry becomes [Updateable], its version
    becomes the old version followed by the candidate version in
    parentheses, its other fields stay, and no other entry changes. *)
Theorem merge_marks_update (packages : list Package) (elements : list string)
    (raw rv pv : string) (index : nat) (p : Package) :
  elements !! 0%nat = Some raw ->
  elements !! 1%nat = Some rv ->
  packages !! index = Some p ->
  rawName p = raw ->
  (forall j q, (j < index)%nat -> packages !! j = Some q -> rawName q <> raw) ->
  version p = Some pv ->
  cmpVersions pv rv < 0 ->
  exists p',
    merge_elements packages elements = Ok (<[index := p']> packages)
    /\ state p' = Updateable
    /\ version p' = Some (pv ++ "(" ++ rv ++ ")")
    /\ description p' = description p
    /\ category p' = category p
    /\ name p' = name p
    /\ rawName p' = rawName p
    /\ details p' = details p.
Proof.
  intros H0 H1 Hp Hraw Hfirst Hpv Hlt.
  unfold merge_elements. rewrite H0, H1.
  rewrite (find_first_by_rawName packages raw index p) by done.
  rewrite Hpv. destruct (Z.ltb_spec (cmpVersions pv rv) 0); [|lia].
  eexists. split; [reflexivity|]. by repeat split.
Qed.

Lemma merge_marks_update_witness :
  exists p',
    merge_elements [installed_a_x "1.0"] (elements_of "a;x| 2.0| desc")
    = Ok (<[0%nat := p']> [installed_a_x "1.0"])
    /\ state p' = Updateable
    /\ version p' = Some ("1.0" ++ "(" ++ "2.0" ++ ")")
    /\ description p' = description (installed_a_x "1.0")
    /\ category p' = category (installed_a_x "1.0")
    /\ name p' = name (installed_a_x "1.0")
    /\ rawName p' = rawName (installed_a_x "1.0")
    /\ details p' = details (installed_a_x "1.0").
Proof.
  apply (merge_marks_update [installed_a_x "1.0"]
           (elements_of "a;x| 2.0| desc") "a;x" "2.0" "1.0" 0%nat
           (installed_a_x "1.0")).
  - reflexivity.
  - reflexivity.
  - reflexivity.
  - reflexivity.
  - intros j q Hj. lia.
  - reflexivity.
  - reflexivity.
Defined.

(** C7. The same row, but with a version that the comparator does not
    put above the entry's version: the catalog is left as it was, entry
    and all, and nothing is appended. *)
Theorem merge_keeps_installed (packages : list Package) (elements : list string)
    (raw rv pv : string) (index : nat) (p : Package) :
  elements !! 0%nat = Some raw ->
  elements !! 1%nat = Some rv ->
  packages !! index = Some p ->
  rawName p = raw ->
  (forall j q, (j < index)%nat -> packages !! j = Some q -> rawName q <> raw) ->
  version p = Some pv ->
  ~ cmpVersions pv rv < 0 ->
  merge_elements packages elements = Ok packages.
Proof.
  intros H0 H1 Hp Hraw Hfirst Hpv Hge.
  unfold merge_elements. rewrite H0, H1.
  rewrite (find_first_by_rawName packages raw index p) by done.
  rewrite Hpv. by destruct (Z.ltb_spec (cmpVersions pv rv) 0).
Qed.

Lemma merge_keeps_installed_witness :
  merge_elements [installed_a_x "2.0"] (elements_of "a;x| 1.0| desc")
  = Ok [installed_a_x "2.0"].
Proof.
  apply (merge_keeps_installed [installed_a_x "2.0"]
           (elements_of "a;x| 1.0| desc") "a;x" "1.0" "2.0" 0%nat
           (installed_a_x "2.0")).
  - reflexivity.
  - reflexivity.
  - reflexivity.
  - reflexivity.
  - intros j q Hj. lia.
  - reflexivity.
  - vm_compute. discriminate.
Defined.

(** The two merge examples of the specification, through [parseList]. *)
Example parseList_update :
  parseList (merge_report "a;x| 1.0| desc" "a;x| 2.0| desc")
  = Ok [ {| category := "a"; name := "x"; rawName := "a;x"; details := None;
            description := Some "desc"; version := Some "1.0(2.0)";
            state := Updateable |} ].
Proof. vm_compute. reflexivity. Qed.

Example parseList_no_downgrade :
  parseList (merge_report "a;x| 2.0| desc" "a;x| 1.0| desc")
  = Ok [installed_a_x "2.0"].
Proof. vm_compute. reflexivity. Qed.

(** ** Uniqueness of [rawName] *)

Lemma new_Package_rawName st elements p :
  new_Package st elements = Ok p -> elements !! 0%nat = Some (rawName p).
Proof.
  unfold new_Package. destruct (elements !! 0%nat) as [raw|]; [|done].
  destruct (parsePackageName raw). by intros [= <-].
Qed.

Lemma merge_elements_NoDup packages elements packages' :
  NoDup (rawName <$> packages) ->
  merge_elements packages elements = Ok packages' ->
  NoDup (rawName <$> packages').
Proof.
  intros Hnd. unfold merge_elements.
  destruct (elements !! 0%nat) as [raw|] eqn:H0; [|done].
  destruct (list_find _ packages) as [[index p]|] eqn:Hfind.
  - apply list_find_Some in Hfind as (Hp & _ & _).
    destruct (version p) as [pv|]; [|done].
    destruct (elements !! 1%nat) as [rv|]; [|done].
    destruct (_ <? 0); intros [= <-]; [|done].
    rewrite list_fmap_insert. simpl.
    rewrite list_insert_id; [done|]. by rewrite list_lookup_fmap, Hp.
  - apply list_find_None in Hfind.
    unfold mbind, result_bind.
    destruct (new_Package Available elements) as [p| |] eqn:Hnew; [|done..].
    intros [= <-]. apply new_Package_rawName in Hnew.
    rewrite fmap_app. apply NoDup_app. split; [done|]. split.
    + intros x Hx Hx'. apply list_elem_of_singleton in Hx' as ->.
      apply list_elem_of_fmap in Hx as (q & Hq & Hin).
      rewrite Forall_forall in Hfind. apply (Hfind q Hin). congruence.
    + apply NoDup_singleton.
Qed.

Lemma available_loop_NoDup lines packages pointer steps packages' pointer' :
  NoDup (rawName <$> packages) ->
  available_loop lines packages pointer steps = Ok (packages', pointer') ->
  NoDup (rawName <$> packages').
Proof.
  revert packages pointer; induction steps as [|steps IH];
    intros packages pointer Hnd; [done|].
  cbn [available_loop].
  destruct (_ <? _)%nat; [|by intros [= <- _]].
  destruct (lines !! pointer) as [line|]; [|done].
  destruct (String.eqb line ""); [by apply IH|].
  destruct (Js.startsWith _ _); [by intros [= <- _]|].
  unfold mbind, result_bind.
  destruct (merge_elements packages (elements_of line)) as [pk| |] eqn:Hm;
    [|done..].
  apply IH. eapply merge_elements_NoDup; eauto.
Qed.

(** C5, the claim as it stands: the installed section is not searched
    for names already in the catalog, so two installed rows of one name
    give two entries of that name. *)
Lemma parseList_repeats_installed_name :
  exists packages,
    parseList twice_installed_report = Ok packages
    /\ rawName <$> packages = ["tools"; "tools"]
    /\ ~ NoDup (rawName <$> packages).
Proof.
  eexists. split; [vm_compute; reflexivity|]. split; [reflexivity|].
  simpl. intros Hnd. apply NoDup_cons in Hnd as [Hnotin _].
  apply Hnotin. by left.
Qed.

(** C5, amended. The available section never adds a second entry of a
    name: if the entries made from the installed section have pairwise
    different [rawName]s, so have the entries of the catalog that
    [parseList] returns. *)
Theorem parseList_rawName_unique (stdout : string)
    (installed packages : list Package) (pointer : nat) :
  installed_section (Js.split_lines stdout) = Ok (installed, pointer) ->
  NoDup (rawName <$> installed) ->
  parseList stdout = Ok packages ->
  NoDup (rawName <$> packages).
Proof.
  intros Hinst Hnd. unfold parseList. rewrite Hinst.
  cbn [mbind result_bind].
  destruct (available_loop _ installed pointer _)
    as [[packages' pointer']| |] eqn:Hav; [|done..].
  intros [= <-]. eapply available_loop_NoDup; eauto.
Qed.

Lemma parseList_rawName_unique_witness :
  NoDup (rawName <$> [ {| category := "a"; name := "x"; rawName := "a;x";
                          details := None; description := Some "desc";
                          version := Some "1.0(2.0)"; state := Updateable |} ]).
Proof.
  apply (parseList_rawName_unique
           (merge_report "a;x| 1.0| desc" "a;x| 2.0| desc")
           [installed_a_x "1.0"] _ 7%nat).
  - vm_compute. reflexivity.
  - vm_compute. repeat constructor. intros Hin. inversion Hin.
  - vm_compute. reflexivity.
Defined.

(** ** The record parser *)

Lemma split_bar_none C :
  includes C "| " = false -> Js.split "| " C = [C].
Proof.
  unfold Js.split. induction C as [|c t IH]; [done|].
  cbn [includes Js.split_from]. intros [Hhere Hrest]%orb_false_elim.
  rewrite Hhere, (IH Hrest). reflexivity.
Qed.

Lemma split_bar_field A R :
  includes A "| " = false ->
  Js.split "| " (A ++ "| " ++ R) = A :: Js.split "| " R.
Proof.
  unfold Js.split. induction A as [|c A' IH]; [done|].
  cbn [includes]. intros [Hhere Hrest]%orb_false_elim.
  change (String c A' ++ "| " ++ R) with (String c (A' ++ "| " ++ R)).
  cbn [Js.split_from].
  replace (Js.startsWith (String c (A' ++ "| " ++ R)) "| ") with false.
  - rewrite (IH Hrest). reflexivity.
  - symmetry. revert Hhere. cbn [Js.startsWith].
    destruct (Ascii.eqb "|" c); [|done].
    destruct A' as [|d A'']; simpl; done.
Qed.

Lemma elements_of_three_fields A B C :
  includes A "| " = false ->
  includes B "| " = false ->
  includes C "| " = false ->
  elements_of (A ++ "| " ++ B ++ "| " ++ C)
  = [Js.trim A; Js.trim B; Js.trim C].
Proof.
  intros HA HB HC. unfold elements_of.
  by rewrite (split_bar_field A), (split_bar_field B), (split_bar_none C).
Qed.

(** C9, the claim as it stands. The first field of a report row is
    padded, and the record holds it without the padding; and a name
    whose second segment is empty falls back to the first segment
    although segments remain. *)
Lemma record_parser_trims_and_tests_second_segment :
  (exists p,
     new_Package Installed (elements_of "  tools | 26.1.1 | Android SDK Tools")
     = Ok p
     /\ includes "  tools " "| " = false
     /\ rawName p = "tools"
     /\ rawName p <> "  tools ")
  /\ (exists p,
        new_Package Installed (elements_of "a;;b| 1| d") = Ok p
        /\ Js.split ";" (rawName p) = ["a"; ""; "b"]
        /\ name p = "a"
        /\ name p <> Js.join "; " [""; "b"]).
Proof.
  split; eexists; (split; [vm_compute; reflexivity|]); repeat split; done.
Qed.

(** C9, amended. For a line [A| B| C] whose three fields contain no
    delimiter, the record has [rawName], [version] and [description]
    equal to [A], [B] and [C] with the white space at both ends removed;
    [category] is the first [";"]-segment of [rawName]; [name] is the
    remaining segments joined with ["; "] when the second segment is not
    empty, and the first segment when there is no second segment or it is
    empty. *)
Theorem record_of_three_fields (st : InstallStates) (A B C : string) :
  includes A "| " = false ->
  includes B "| " = false ->
  includes C "| " = false ->
  exists p first rest,
    new_Package st (elements_of (A ++ "| " ++ B ++ "| " ++ C)) = Ok p
    /\ rawName p = Js.trim A
    /\ version p = Some (Js.trim B)
    /\ description p = Some (Js.trim C)
    /\ state p = st
    /\ Js.split ";" (rawName p) = first :: rest
    /\ category p = first
    /\ name p = match rest with
                | [] => first
                | second :: _ =>
                    if String.eqb second "" then first else Js.join "; " rest
                end.
Proof.
  intros HA HB HC. rewrite elements_of_three_fields by done.
  unfold new_Package, parsePackageName. cbn [lookup list_lookup].
  pose proof (split_from_nonempty ";" 0 (Js.trim A)) as Hne.
  fold (Js.split ";" (Js.trim A)) in Hne.
  destruct (Js.split ";" (Js.trim A)) as [|first rest] eqn:Hsplit; [done|].
  eexists _, first, rest. split; [reflexivity|]. cbn.
  repeat split. exact Hsplit.
Qed.

Lemma record_of_three_fields_witness :
  exists p first rest,
    new_Package Available
      (elements_of ("  platforms;android-30 " ++ "| " ++ "3 "
                    ++ "| " ++ "Android SDK Platform 30")) = Ok p
    /\ rawName p = Js.trim "  platforms;android-30 "
    /\ version p = Some (Js.trim "3 ")
    /\ description p = Some (Js.trim "Android SDK Platform 30")
    /\ state p = Available
    /\ Js.split ";" (rawName p) = first :: rest
    /\ category p = first
    /\ name p = match rest with
                | [] => first
                | second :: _ =>
                    if String.eqb second "" then first else Js.join "; " rest
                end.
Proof.
  apply (record_of_three_fields Available "  platforms;android-30 " "3 "
           "Android SDK Platform 30"); reflexivity.
Defined.

Example parsePackageName_platforms :
  parsePackageName "platforms;android-30" = ("android-30", "platforms").
Proof. reflexivity. Qed.

Example parsePackageName_tools : parsePackageName "tools" = ("tools", "tools").
Proof. reflexivity. Qed.

(** ** The version comparator against its description *)

Lemma split_dot_cons c t :
  Js.split "." (String c t)
  = if Ascii.eqb c "." then EmptyString :: Js.split "." t
    else Js.push_front c (Js.split "." t).
Proof.
  unfold Js.split. cbn [Js.split_from Js.startsWith String.length Nat.pred].
  rewrite (Ascii.eqb_sym "." c), andb_true_r. reflexivity.
Qed.

Lemma split_dot_inv t : exists z rest, Js.split "." t = z :: rest.
Proof.
  pose proof (split_from_nonempty "." 0 t) as Hne. unfold Js.split.
  destruct (Js.split_from "." 0 t) as [|z rest]; [done|]. by exists z, rest.
Qed.

(** What the anchored pattern accepts, read off the segments. *)
Lemma regExStrip0_whole_segments t :
  (regExStrip0_whole InZeros t
   = match Js.split "." t with
     | z :: rest =>
         Comparator.all_zeros z && forallb Comparator.zero_segment rest
     | [] => false
     end)
  /\ (regExStrip0_whole NeedZero t
      = match Js.split "." t with
        | z :: rest =>
            Comparator.zero_segment z && forallb Comparator.zero_segment rest
        | [] => false
        end).
Proof.
  induction t as [|c t [IHz IHn]]; [done|].
  destruct (split_dot_inv t) as (z & rest & Hsplit).
  rewrite split_dot_cons. cbn [regExStrip0_whole].
  rewrite IHz, IHn, Hsplit.
  destruct (Ascii.eqb_spec c ".") as [->|Hdot].
  - split; reflexivity.
  - cbn. rewrite orb_false_r, andb_assoc. done.
Qed.

Lemma regExStrip0_whole_NeedDot s :
  regExStrip0_whole NeedDot s
  = match Js.split "." s with
    | first :: rest =>
        String.eqb first "" && negb (Nat.eqb (length rest) 0)
        && forallb Comparator.zero_segment rest
    | [] => false
    end.
Proof.
  destruct s as [|c t]; [done|].
  destruct (split_dot_inv t) as (z & rest & Hsplit).
  rewrite split_dot_cons. cbn [regExStrip0_whole].
  destruct (regExStrip0_whole_segments t) as [_ ->]. rewrite Hsplit.
  destruct (Ascii.eqb_spec c ".") as [->|Hdot]; [done|]. done.
Qed.

Lemma strip_trailing_nil segs :
  Comparator.strip_trailing segs = []
  <-> forallb Comparator.zero_segment segs = true.
Proof.
  induction segs as [|s rest IH]; simpl; [done|].
  destruct (Comparator.strip_trailing rest) as [|k kept].
  - destruct (Comparator.zero_segment s); simpl.
    + split; [intros _; by apply IH|done].
    + split; done.
  - split; [done|]. intros [_ Hrest]%andb_true_iff.
    apply IH in Hrest. done.
Qed.

(** Cutting the text with the pattern and then splitting it gives the
    segments of the description. *)
Lemma split_replace_regExStrip0 s :
  Js.split "." (replace_regExStrip0 s) = Comparator.segments s.
Proof.
  unfold Comparator.segments. induction s as [|c t IH]; [done|].
  cbn [replace_regExStrip0].
  destruct (regExStrip0_whole NeedDot (String c t)) eqn:Hwhole.
  - rewrite regExStrip0_whole_NeedDot in Hwhole.
    destruct (Js.split "." (String c t)) as [|first rest]; [done|].
    apply andb_true_iff in Hwhole as [[Hfirst _]%andb_true_iff Hzeros].
    apply String.eqb_eq in Hfirst as ->.
    apply strip_trailing_nil in Hzeros. by rewrite Hzeros.
  - cbn [regExStrip0_whole] in Hwhole.
    destruct (regExStrip0_whole_segments t) as [_ Hneed].
    rewrite Hneed in Hwhole. clear Hneed.
    rewrite !split_dot_cons, IH.
    destruct (split_dot_inv t) as (z & rest & Hsplit).
    rewrite Hsplit in *.
    destruct (Ascii.eqb c "."); [|done].
    simpl in Hwhole. f_equal. cbn [Comparator.strip_trailing].
    destruct (Comparator.strip_trailing rest) as [|k kept] eqn:Hrest; [|done].
    apply strip_trailing_nil in Hrest. rewrite Hrest, andb_true_r in Hwhole.
    by rewrite Hwhole.
Qed.

(** The index loop, read as a scan of the differences. *)
Lemma cmpVersions_loop_differences sa sb steps i :
  (i + steps <= length sa)%nat ->
  (i + steps <= length sb)%nat ->
  cmpVersions_loop sa sb i steps
  = match Comparator.first_nonzero
            (take steps (Comparator.differences (drop i sa) (drop i sb))) with
    | Some d => d
    | None => Z.of_nat (length sa) - Z.of_nat (length sb)
    end.
Proof.
  revert i; induction steps as [|steps IH]; intros i Ha Hb; [done|].
  destruct (lookup_lt_is_Some_2 sa i) as [x Hx]; [lia|].
  destruct (lookup_lt_is_Some_2 sb i) as [y Hy]; [lia|].
  rewrite (drop_S sa x i Hx), (drop_S sb y i Hy).
  cbn [cmpVersions_loop Comparator.differences zip_with take
       Comparator.first_nonzero].
  rewrite Hx, Hy. cbn [Js.parseInt_value].
  fold (Comparator.differences (drop (S i) sa) (drop (S i) sb)).
  destruct (Js.sub (Js.parseInt x) (Js.parseInt y)) as [d|].
  - destruct (d =? 0); [|done]. apply IH; lia.
  - apply IH; lia.
Qed.

Lemma cmpVersions_compare a b :
  cmpVersions a b
  = Comparator.compare (Comparator.segments a) (Comparator.segments b).
Proof.
  unfold cmpVersions, Comparator.compare.
  rewrite !split_replace_regExStrip0.
  rewrite cmpVersions_loop_differences by lia.
  rewrite !drop_0, take_ge; [done|].
  unfold Comparator.differences. rewrite length_zip_with. lia.
Qed.

Lemma version_segments_described v :
  version_segments v = Comparator.segments v.
Proof. apply split_replace_regExStrip0. Qed.

(** Under the bound no number of the comparison is rounded: the
    difference of two exact numbers is within 2^53. *)
Lemma exact_number_difference x y :
  exact_number x -> exact_number y ->
  match Js.sub x y with
  | Js.Num d => Z.abs d <= 2 ^ 53
  | Js.NaN => True
  end.
Proof.
  destruct x as [a|], y as [b|]; simpl; try done.
  change (2 ^ 53) with (2 * 2 ^ 52). lia.
Qed.

(** Shows [exact_version v] for a given text, from its segments. *)
Ltac exact_version_of segs :=
  unfold exact_version;
  replace (version_segments _) with segs by (vm_compute; reflexivity);
  repeat constructor; vm_compute; discriminate.

(** C8. [cmpVersions] is the comparator of the description: it drops the
    trailing run of zero segments ([.0], and [.00] and longer alike) of
    both versions, takes the numeric differences of the dot-separated
    segments up to the shorter length, answers with the first one that
    is not zero and otherwise with the difference of the segment counts.
    This is stated for versions whose segment values are at most 2^52 in
    magnitude, where the doubles of the source are exact. The four named
    cases come out as stated. *)
Theorem cmpVersions_as_described :
  (forall a b : string,
      exact_version a -> exact_version b ->
      cmpVersions a b
      = Comparator.compare (Comparator.segments a) (Comparator.segments b))
  /\ cmpVersions "1.2" "1.2.0" = 0
  /\ cmpVersions "1.2" "1.3" < 0
  /\ cmpVersions "1.10" "1.9" > 0
  /\ cmpVersions "1.2" "1.2.3" < 0.
Proof.
  split; [intros a b _ _; apply cmpVersions_compare|]. by vm_compute.
Qed.

Lemma cmpVersions_as_described_witness :
  cmpVersions "1.10.0" "1.9"
  = Comparator.compare (Comparator.segments "1.10.0")
                       (Comparator.segments "1.9").
Proof.
  apply (proj1 cmpVersions_as_described "1.10.0" "1.9").
  - exact_version_of ["1"; "10"].
  - exact_version_of ["1"; "9"].
Defined.

Example segments_strip : Comparator.segments "1.2.0.0" = ["1"; "2"].
Proof. reflexivity. Qed.

Lemma first_nonzero_undecided ds :
  Forall (fun d => d = Js.NaN \/ d = Js.Num 0) ds ->
  Comparator.first_nonzero ds = None.
Proof.
  induction 1 as [|d ds [->| ->] _ IH]; simpl; done.
Qed.

Lemma first_nonzero_decides ds j d :
  (forall i, (i < j)%nat ->
             ds !! i = Some Js.NaN \/ ds !! i = Some (Js.Num 0)) ->
  ds !! j = Some (Js.Num d) ->
  d <> 0 ->
  Comparator.first_nonzero ds = Some d.
Proof.
  revert ds; induction j as [|j IH]; intros [|x ds] Hbefore Hj Hd;
    try done.
  - injection Hj as ->. simpl. by destruct (Z.eqb_spec d 0).
  - assert (Comparator.first_nonzero ds = Some d) as Hrest.
    { apply IH; [|done..]. intros i Hi. apply (Hbefore (S i)). lia. }
    destruct (Hbefore 0%nat) as [[= ->] | [= ->]]; [lia|done..].
Qed.

(** C10. A segment pair of which a side is not a number decides nothing
    and the comparison goes on to the later pairs. The loop passes such
    a pair by; when every compared pair is such a pair or a pair of equal
    numbers, the answer is the difference of the segment counts; and
    when the pairs in front of pair [j] are of those kinds and pair [j]
    has a difference other than zero, that difference is the answer
    (stated for segment values of at most 2^52 in magnitude, where the
    doubles of the source are exact). The comparator is a total function
    into the integers, so there is no input on which it throws. The two
    named cases come out as stated, and so does a case that a later
    pair decides. *)
Theorem cmpVersions_non_numeric_segments :
  (forall (segmentsA segmentsB : list string) (i steps : nat),
      Js.parseInt_value (segmentsA !! i) = Js.NaN
      \/ Js.parseInt_value (segmentsB !! i) = Js.NaN ->
      cmpVersions_loop segmentsA segmentsB i (S steps)
      = cmpVersions_loop segmentsA segmentsB (S i) steps)
  /\ (forall a b : string,
         let segmentsA := Js.split "." (replace_regExStrip0 a) in
         let segmentsB := Js.split "." (replace_regExStrip0 b) in
         Forall (fun d => d = Js.NaN \/ d = Js.Num 0)
                (zip_with (fun x y => Js.sub (Js.parseInt x) (Js.parseInt y))
                          segmentsA segmentsB) ->
         cmpVersions a b
         = Z.of_nat (length segmentsA) - Z.of_nat (length segmentsB))
  /\ (forall (a b x y : string) (j : nat) (d : Z),
         exact_version a -> exact_version b ->
         (forall i x' y',
             (i < j)%nat ->
             version_segments a !! i = Some x' ->
             version_segments b !! i = Some y' ->
             Js.sub (Js.parseInt x') (Js.parseInt y') = Js.NaN
             \/ Js.sub (Js.parseInt x') (Js.parseInt y') = Js.Num 0) ->
         version_segments a !! j = Some x ->
         version_segments b !! j = Some y ->
         Js.sub (Js.parseInt x) (Js.parseInt y) = Js.Num d ->
         d <> 0 ->
         cmpVersions a b = d)
  /\ cmpVersions "1.alpha" "1.beta" = 0
  /\ cmpVersions "beta" "beta.1" < 0
  /\ cmpVersions "alpha.1" "beta.2" = -1.
Proof.
  split; [|split; [|split; [|by vm_compute]]].
  - intros sa sb i steps Hnan. cbn [cmpVersions_loop].
    destruct Hnan as [-> | ->]; [done|].
    by destruct (Js.parseInt_value (sa !! i)).
  - intros a b segmentsA segmentsB Hall.
    rewrite cmpVersions_compare. unfold Comparator.compare.
    subst segmentsA segmentsB.
    rewrite !split_replace_regExStrip0 in *.
    unfold Comparator.differences.
    by rewrite (first_nonzero_undecided _ Hall).
  - intros a b x y j d _ _ Hbefore Hx Hy Hsub Hd.
    rewrite cmpVersions_compare, <- !version_segments_described.
    unfold Comparator.compare, Comparator.differences.
    rewrite (first_nonzero_decides _ j d); [done| |by rewrite
      lookup_zip_with, Hx, Hy; simpl; rewrite Hsub|done].
    intros i Hi. rewrite lookup_zip_with.
    destruct (lookup_lt_is_Some_2 (version_segments a) i) as [x' Hx'].
    { apply lookup_lt_Some in Hx. lia. }
    destruct (lookup_lt_is_Some_2 (version_segments b) i) as [y' Hy'].
    { apply lookup_lt_Some in Hy. lia. }
    rewrite Hx', Hy'. simpl.
    destruct (Hbefore i x' y' Hi Hx' Hy') as [-> | ->]; auto.
Qed.

Lemma cmpVersions_non_numeric_segments_witness :
  cmpVersions_loop ["1"; "alpha"] ["1"; "beta"] 1 (S 0)
  = cmpVersions_loop ["1"; "alpha"] ["1"; "beta"] (S 1) 0
  /\ cmpVersions "beta" "beta.1"
     = Z.of_nat (length (Js.split "." (replace_regExStrip0 "beta")))
       - Z.of_nat (length (Js.split "." (replace_regExStrip0 "beta.1")))
  /\ cmpVersions "alpha.1" "beta.2" = -1.
Proof.
  split; [|split].
  - apply (proj1 cmpVersions_non_numeric_segments
             ["1"; "alpha"] ["1"; "beta"] 1%nat 0%nat).
    left. reflexivity.
  - apply (proj1 (proj2 cmpVersions_non_numeric_segments) "beta" "beta.1").
    vm_compute. repeat constructor.
  - apply (proj1 (proj2 (proj2 cmpVersions_non_numeric_segments))
             "alpha.1" "beta.2" "1" "2" 1%nat (-1)).
    + exact_version_of ["alpha"; "1"].
    + exact_version_of ["beta"; "2"].
    + intros i x' y' Hi. assert (i = 0%nat) as -> by lia.
      intros [= <-] [= <-]. left. reflexivity.
    + reflexivity.
    + reflexivity.
    + reflexivity.
    + discriminate.
Defined.

(** * Further properties *)

(** ** The comparator as an order *)

Lemma compare_cons a sa b sb :
  Comparator.compare (a :: sa) (b :: sb)
  = match Js.sub (Js.parseInt a) (Js.parseInt b) with
    | Js.Num d => if d =? 0 then Comparator.compare sa sb else d
    | Js.NaN => Comparator.compare sa sb
    end.
Proof.
  unfold Comparator.compare, Comparator.differences.
  cbn [zip_with Comparator.first_nonzero length].
  assert (Z.of_nat (S (length sa)) - Z.of_nat (S (length sb))
          = Z.of_nat (length sa) - Z.of_nat (length sb)) as Hlen by lia.
  destruct (Js.sub _ _) as [d|]; [destruct (d =? 0)|]; by rewrite ?Hlen.
Qed.

Lemma compare_nil_l sb :
  Comparator.compare [] sb = - Z.of_nat (length sb).
Proof. unfold Comparator.compare. simpl. lia. Qed.

Lemma compare_nil_r sa :
  Comparator.compare sa [] = Z.of_nat (length sa).
Proof.
  unfold Comparator.compare, Comparator.differences.
  destruct sa; simpl; lia.
Qed.

Lemma compare_swap sa sb :
  Comparator.compare sb sa = - Comparator.compare sa sb.
Proof.
  revert sb; induction sa as [|a sa IH]; intros [|b sb].
  - done.
  - rewrite compare_nil_l, compare_nil_r. lia.
  - rewrite compare_nil_l, compare_nil_r. lia.
  - rewrite !compare_cons.
    destruct (Js.parseInt a) as [x|], (Js.parseInt b) as [y|]; simpl;
      try apply IH.
    destruct (Z.eqb_spec (y - x) 0), (Z.eqb_spec (x - y) 0);
      try lia. apply IH.
Qed.

(** X1. Swapping the two versions negates the answer of [cmpVersions];
    so a version compares equal to itself, whatever its text. *)
Theorem cmpVersions_antisymmetric :
  (forall a b : string, cmpVersions b a = - cmpVersions a b)
  /\ (forall a : string, cmpVersions a a = 0).
Proof.
  assert (forall a b : string, cmpVersions b a = - cmpVersions a b) as Hswap.
  { intros a b. rewrite !cmpVersions_compare. apply compare_swap. }
  split; [exact Hswap|]. intros a. specialize (Hswap a a). lia.
Qed.

Lemma split_dot_app a t :
  Js.split "." (a ++ String "." t) = (Js.split "." a ++ Js.split "." t)%list.
Proof.
  induction a as [|c a IH].
  { change ("" ++ String "." t) with (String "." t).
    by rewrite split_dot_cons. }
  change (String c a ++ String "." t) with (String c (a ++ String "." t)).
  rewrite !split_dot_cons, IH.
  destruct (Ascii.eqb c "."); [done|].
  destruct (split_dot_inv a) as (z & rest & ->). done.
Qed.

Lemma strip_trailing_zero_segment rest z :
  Comparator.zero_segment z = true ->
  Comparator.strip_trailing (rest ++ [z]) = Comparator.strip_trailing rest.
Proof.
  intros Hz. induction rest as [|s rest IH]; simpl; [by rewrite Hz|].
  by rewrite IH.
Qed.

Lemma segments_zero_suffix a :
  Comparator.segments (a ++ ".0") = Comparator.segments a.
Proof.
  unfold Comparator.segments.
  change (a ++ ".0") with (a ++ String "." "0").
  rewrite split_dot_app.
  destruct (split_dot_inv a) as (first & rest & ->).
  change (Js.split "." "0") with ["0"]. simpl.
  by rewrite strip_trailing_zero_segment.
Qed.

(** X2. A [".0"] appended to either version changes no comparison. *)
Theorem cmpVersions_ignores_appended_zero (a b : string) :
  cmpVersions (a ++ ".0") b = cmpVersions a b
  /\ cmpVersions a (b ++ ".0") = cmpVersions a b.
Proof.
  rewrite !cmpVersions_compare, !segments_zero_suffix. done.
Qed.

Lemma first_nonzero_Some ds d :
  Comparator.first_nonzero ds = Some d -> d <> 0.
Proof.
  induction ds as [|[x|] ds IH]; simpl; [done| |done].
  destruct (Z.eqb_spec x 0); [done|]. by intros [= <-].
Qed.

Lemma first_nonzero_None ds :
  Comparator.first_nonzero ds = None
  <-> Forall (fun d => d = Js.NaN \/ d = Js.Num 0) ds.
Proof.
  split; [|apply first_nonzero_undecided].
  induction ds as [|[x|] ds IH]; simpl; intros Hnone.
  - constructor.
  - destruct (Z.eqb_spec x 0) as [->|]; [|done].
    constructor; [by right|by apply IH].
  - constructor; [by left|by apply IH].
Qed.

(** X3. On versions whose segment values are at most 2^52 in magnitude,
    where the doubles of the source are exact, [cmpVersions] answers
    zero exactly when the two versions have the same number of compared
    segments and every pair of segments either differs by zero or has a
    side that is not a number. *)
Theorem cmpVersions_zero (a b : string) :
  exact_version a -> exact_version b ->
  (cmpVersions a b = 0
   <-> length (version_segments a) = length (version_segments b)
       /\ Forall (fun d => d = Js.NaN \/ d = Js.Num 0)
                 (zip_with (fun x y => Js.sub (Js.parseInt x) (Js.parseInt y))
                           (version_segments a) (version_segments b))).
Proof.
  intros _ _.
  rewrite cmpVersions_compare. unfold version_segments.
  rewrite !split_replace_regExStrip0.
  unfold Comparator.compare, Comparator.differences.
  set (ds := zip_with _ _ _).
  destruct (Comparator.first_nonzero ds) as [d|] eqn:Hfirst.
  - split.
    + intros ->. by apply first_nonzero_Some in Hfirst.
    + intros [_ Hall]. apply first_nonzero_None in Hall. congruence.
  - apply first_nonzero_None in Hfirst. split; [|lia]. split; [lia|done].
Qed.

Lemma cmpVersions_zero_witness :
  cmpVersions "28.0.3" "28.0.3-rc1" = 0
  <-> length (version_segments "28.0.3")
      = length (version_segments "28.0.3-rc1")
      /\ Forall (fun d => d = Js.NaN \/ d = Js.Num 0)
                (zip_with (fun x y => Js.sub (Js.parseInt x) (Js.parseInt y))
                          (version_segments "28.0.3")
                          (version_segments "28.0.3-rc1")).
Proof.
  apply (cmpVersions_zero "28.0.3" "28.0.3-rc1").
  - exact_version_of ["28"; "0"; "3"].
  - exact_version_of ["28"; "0"; "3-rc1"].
Defined.

Lemma compare_transitive sa sb sc :
  Forall (fun seg => Js.parseInt seg <> Js.NaN) sa ->
  Forall (fun seg => Js.parseInt seg <> Js.NaN) sb ->
  Forall (fun seg => Js.parseInt seg <> Js.NaN) sc ->
  Comparator.compare sa sb < 0 ->
  Comparator.compare sb sc < 0 ->
  Comparator.compare sa sc < 0.
Proof.
  intros Ha; revert sb sc.
  induction Ha as [|a sa Hna Ha IH]; intros sb sc Hb Hc.
  - destruct Hc as [|c sc Hnc Hc].
    + rewrite compare_nil_r. destruct sb; simpl; lia.
    + intros _ _. rewrite compare_nil_l. simpl. lia.
  - destruct Hb as [|b sb Hnb Hb].
    + rewrite compare_nil_r. simpl. lia.
    + destruct Hc as [|c sc Hnc Hc].
      * intros _. rewrite compare_nil_r. simpl. lia.
      * rewrite !compare_cons.
        destruct (Js.parseInt a) as [x|]; [|done].
        destruct (Js.parseInt b) as [y|]; [|done].
        destruct (Js.parseInt c) as [z|]; [|done]. simpl.
        destruct (Z.eqb_spec (x - y) 0), (Z.eqb_spec (y - z) 0),
                 (Z.eqb_spec (x - z) 0); try lia.
        by apply IH.
Qed.

(** X4. On versions whose compared segments all start with a number,
    "compares below" is transitive. *)
Theorem cmpVersions_transitive (a b c : string) :
  numeric_version a -> numeric_version b -> numeric_version c ->
  cmpVersions a b < 0 -> cmpVersions b c < 0 -> cmpVersions a c < 0.
Proof.
  unfold numeric_version, version_segments.
  rewrite !cmpVersions_compare, !split_replace_regExStrip0.
  apply compare_transitive.
Qed.

Lemma cmpVersions_transitive_witness : cmpVersions "1.9" "1.10.1" < 0.
Proof.
  apply (cmpVersions_transitive "1.9" "1.10" "1.10.1").
  - unfold numeric_version.
    replace (version_segments "1.9") with ["1"; "9"]
      by (vm_compute; reflexivity).
    repeat constructor; discriminate.
  - unfold numeric_version.
    replace (version_segments "1.10") with ["1"; "10"]
      by (vm_compute; reflexivity).
    repeat constructor; discriminate.
  - unfold numeric_version.
    replace (version_segments "1.10.1") with ["1"; "10"; "1"]
      by (vm_compute; reflexivity).
    repeat constructor; discriminate.
  - reflexivity.
  - reflexivity.
Defined.

(** ** What every entry of a catalog satisfies *)

Lemma new_Package_fields st elements p :
  new_Package st elements = Ok p ->
  state p = st /\ details p = None
  /\ (name p, category p) = parsePackageName (rawName p)
  /\ version p = elements !! 1%nat /\ description p = elements !! 2%nat.
Proof.
  unfold new_Package. destruct (elements !! 0%nat) as [raw|]; [|done].
  destruct (parsePackageName raw) as [nm cat] eqn:Hname.
  intros [= <-]. simpl. by rewrite Hname.
Qed.

Section Invariant.
Context (P : Package -> Prop).
Hypothesis P_new : forall st line p,
  st = Installed \/ st = Available ->
  new_Package st (elements_of line) = Ok p -> P p.
Hypothesis P_marked : forall p pv rv,
  P p -> version p = Some pv -> cmpVersions pv rv < 0 -> P (marked p pv rv).

Lemma installed_loop_Forall lines packages pointer steps packages' pointer' :
  Forall P packages ->
  installed_loop lines packages pointer steps = Ok (packages', pointer') ->
  Forall P packages'.
Proof.
  revert packages pointer; induction steps as [|steps IH];
    intros packages pointer HP; [done|].
  cbn [installed_loop].
  destruct (_ <? _)%nat; [|by intros [= <- _]].
  destruct (lines !! pointer) as [line0|]; [|done].
  destruct (lines !! _) as [line|]; [|done].
  destruct (Js.startsWith _ _); [by intros [= <- _]|].
  unfold mbind, result_bind.
  destruct (new_Package Installed (elements_of line)) as [p| |] eqn:Hp;
    [|done..].
  apply IH. apply Forall_app. split; [done|].
  constructor; [|constructor]. eapply P_new; [by left|done].
Qed.

Lemma merge_elements_Forall packages line packages' :
  Forall P packages ->
  merge_elements packages (elements_of line) = Ok packages' ->
  Forall P packages'.
Proof.
  intros HP. unfold merge_elements. set (elements := elements_of line).
  destruct (elements !! 0%nat) as [raw|]; [|done].
  destruct (list_find _ packages) as [[index p]|] eqn:Hfind.
  - apply list_find_Some in Hfind as (Hp & _ & _).
    destruct (version p) as [pv|] eqn:Hpv; [|done].
    destruct (elements !! 1%nat) as [rv|]; [|done].
    destruct (Z.ltb_spec (cmpVersions pv rv) 0); intros [= <-]; [|done].
    apply Forall_insert; [done|].
    apply (P_marked p pv rv); [|done..].
    rewrite Forall_forall in HP. apply HP. by eapply list_elem_of_lookup_2.
  - unfold mbind, result_bind.
    destruct (new_Package Available elements) as [p| |] eqn:Hnew; [|done..].
    intros [= <-]. apply Forall_app. split; [done|].
    constructor; [|constructor]. eapply P_new; [by right|done].
Qed.

Lemma available_loop_Forall lines packages pointer steps packages' pointer' :
  Forall P packages ->
  available_loop lines packages pointer steps = Ok (packages', pointer') ->
  Forall P packages'.
Proof.
  revert packages pointer; induction steps as [|steps IH];
    intros packages pointer HP; [done|].
  cbn [available_loop].
  destruct (_ <? _)%nat; [|by intros [= <- _]].
  destruct (lines !! pointer) as [line|]; [|done].
  destruct (String.eqb line ""); [by apply IH|].
  destruct (Js.startsWith _ _); [by intros [= <- _]|].
  unfold mbind, result_bind.
  destruct (merge_elements packages (elements_of line)) as [pk| |] eqn:Hm;
    [|done..].
  apply IH. by eapply merge_elements_Forall.
Qed.

Lemma parseList_Forall stdout packages :
  parseList stdout = Ok packages -> Forall P packages.
Proof.
  unfold parseList, installed_section, mbind, result_bind.
  destruct (skip_loop _ _ _) as [pointer| |]; [|done..].
  destruct (installed_loop _ _ _ _) as [[installed pointer']| |] eqn:Hinst;
    [|done..].
  destruct (available_loop _ _ _ _) as [[packages' pointer'']| |] eqn:Hav;
    [|done..].
  intros [= <-]. eapply available_loop_Forall; [|exact Hav].
  eapply installed_loop_Forall; [|exact Hinst]. constructor.
Qed.
End Invariant.

(** X5. In every catalog that [parseList] returns, the category and the
    name of each entry are those that [parsePackageName] derives from
    its [rawName], and [details] is unset. *)
Theorem parseList_entries_derived (stdout : string) (packages : list Package) :
  parseList stdout = Ok packages ->
  Forall (fun p => (name p, category p) = parsePackageName (rawName p)
                   /\ details p = None) packages.
Proof.
  apply parseList_Forall.
  - intros st line p _ Hp.
    by destruct (new_Package_fields st _ p Hp) as (_ & ? & ? & _).
  - intros p pv rv HP _ _. exact HP.
Qed.

Lemma parseList_entries_derived_witness :
  Forall (fun p => (name p, category p) = parsePackageName (rawName p)
                   /\ details p = None)
         [marked (installed_a_x "1.0") "1.0" "2.0"].
Proof.
  apply (parseList_entries_derived
           (merge_report "a;x| 1.0| desc" "a;x| 2.0| desc")).
  vm_compute. reflexivity.
Defined.

(** X6. In every catalog that [parseList] returns, an entry in state
    [Updateable] has a version of the form [v(r)], where the comparator
    put [v] below [r] when the entry was marked. *)
Theorem parseList_updateable_version (stdout : string)
    (packages : list Package) :
  parseList stdout = Ok packages ->
  Forall (fun p => state p = Updateable ->
                   exists pv rv, version p = Some (pv ++ "(" ++ rv ++ ")")
                                 /\ cmpVersions pv rv < 0) packages.
Proof.
  apply parseList_Forall.
  - intros st line p Hst Hp.
    destruct (new_Package_fields st _ p Hp) as (-> & _).
    intros ->. by destruct Hst.
  - intros p pv rv _ _ Hlt _. by exists pv, rv.
Qed.

Lemma parseList_updateable_version_witness :
  Forall (fun p => state p = Updateable ->
                   exists pv rv, version p = Some (pv ++ "(" ++ rv ++ ")")
                                 /\ cmpVersions pv rv < 0)
         [marked (installed_a_x "1.0") "1.0" "2.0"].
Proof.
  apply (parseList_updateable_version
           (merge_report "a;x| 1.0| desc" "a;x| 2.0| desc")).
  vm_compute. reflexivity.
Defined.

(** ** What the available section leaves of the installed entries *)

Lemma same_package_refl p : same_package p p.
Proof. unfold same_package. auto 10. Qed.

Lemma same_package_trans p q r :
  same_package p q -> same_package q r -> same_package p r.
Proof.
  unfold same_package.
  intros (? & ? & ? & ? & ? & Hq) (? & ? & ? & ? & ? & Hr).
  repeat split; try congruence.
  destruct Hr as [->|Hr]; [exact Hq|by right].
Qed.

Lemma same_package_marked p pv rv : same_package p (marked p pv rv).
Proof. unfold same_package, marked. simpl. auto 10. Qed.

Lemma same_package_added l k :
  Forall2 same_package l k ->
  Forall (fun p => state p = Available \/ state p = Updateable) l ->
  Forall (fun p => state p = Available \/ state p = Updateable) k.
Proof.
  induction 1 as [|p q l k (_ & _ & _ & _ & _ & Hq) _ IH];
    intros Hl; [constructor|].
  apply Forall_cons in Hl as [Hp Hl]. constructor; [|by apply IH].
  destruct Hq as [->|Hq]; [done|by right].
Qed.

Lemma merge_elements_keeps packages elements packages' :
  merge_elements packages elements = Ok packages' ->
  exists kept added,
    packages' = (kept ++ added)%list
    /\ Forall2 same_package packages kept
    /\ Forall (fun p => state p = Available) added.
Proof.
  unfold merge_elements.
  destruct (elements !! 0%nat) as [raw|]; [|done].
  destruct (list_find _ packages) as [[index p]|] eqn:Hfind.
  - apply list_find_Some in Hfind as (Hp & _ & _).
    destruct (version p) as [pv|]; [|done].
    destruct (elements !! 1%nat) as [rv|]; [|done].
    destruct (_ <? 0); intros [= <-].
    + exists (<[index := marked p pv rv]> packages), [].
      rewrite app_nil_r. split; [done|]. split; [|constructor].
      rewrite <- (list_insert_id packages index p Hp) at 1.
      apply Forall2_insert; [|apply same_package_marked].
      apply Forall_Forall2_diag, Forall_forall. intros. apply same_package_refl.
    + exists packages, []. rewrite app_nil_r. split; [done|].
      split; [|constructor].
      apply Forall_Forall2_diag, Forall_forall. intros. apply same_package_refl.
  - unfold mbind, result_bind.
    destruct (new_Package Available elements) as [p| |] eqn:Hnew; [|done..].
    intros [= <-]. exists packages, [p]. split; [done|]. split.
    + apply Forall_Forall2_diag, Forall_forall. intros. apply same_package_refl.
    + constructor; [|constructor].
      by destruct (new_Package_fields _ _ _ Hnew) as (? & _).
Qed.

Lemma available_loop_keeps lines packages pointer steps packages' pointer' :
  available_loop lines packages pointer steps = Ok (packages', pointer') ->
  exists kept added,
    packages' = (kept ++ added)%list
    /\ Forall2 same_package packages kept
    /\ Forall (fun p => state p = Available \/ state p = Updateable) added.
Proof.
  assert (forall pk : list Package, exists kept added : list Package,
             pk = (kept ++ added)%list
             /\ Forall2 same_package pk kept
             /\ Forall (fun p => state p = Available \/ state p = Updateable)
                       added) as Hsame.
  { intros pk. exists pk, []. rewrite app_nil_r. split; [done|].
    split; [|constructor].
    apply Forall_Forall2_diag, Forall_forall. intros. apply same_package_refl. }
  revert packages pointer; induction steps as [|steps IH];
    intros packages pointer; [done|].
  cbn [available_loop].
  destruct (_ <? _)%nat; [|intros [= <- _]; apply Hsame].
  destruct (lines !! pointer) as [line|]; [|done].
  destruct (String.eqb line ""); [by apply IH|].
  destruct (Js.startsWith _ _); [intros [= <- _]; apply Hsame|].
  unfold mbind, result_bind.
  destruct (merge_elements packages (elements_of line)) as [pk| |] eqn:Hm;
    [|done..].
  intros Hloop.
  apply merge_elements_keeps in Hm as (kept1 & added1 & -> & Hkept1 & Hadded1).
  apply IH in Hloop as (kept2 & added2 & -> & Hkept2 & Hadded2).
  apply Forall2_app_inv_l in Hkept2 as (k21 & k22 & Hk21 & Hk22 & ->).
  exists k21, (k22 ++ added2)%list. split; [by rewrite app_assoc|]. split.
  - eapply Forall2_trans; [|exact Hkept1|exact Hk21].
    apply same_package_trans.
  - apply Forall_app. split; [|done].
    apply (same_package_added added1); [done|].
    eapply Forall_impl; [exact Hadded1|]. intros p Hp. by left.
Qed.

Lemma installed_loop_Installed lines packages pointer steps packages' pointer' :
  Forall (fun p => state p = Installed) packages ->
  installed_loop lines packages pointer steps = Ok (packages', pointer') ->
  Forall (fun p => state p = Installed) packages'.
Proof.
  revert packages pointer; induction steps as [|steps IH];
    intros packages pointer HP; [done|].
  cbn [installed_loop].
  destruct (_ <? _)%nat; [|by intros [= <- _]].
  destruct (lines !! pointer) as [line0|]; [|done].
  destruct (lines !! _) as [line|]; [|done].
  destruct (Js.startsWith _ _); [by intros [= <- _]|].
  unfold mbind, result_bind.
  destruct (new_Package Installed (elements_of line)) as [p| |] eqn:Hp;
    [|done..].
  apply IH. apply Forall_app. split; [done|].
  constructor; [|constructor].
  by destruct (new_Package_fields _ _ _ Hp) as (? & _).
Qed.

Lemma installed_section_Installed lines installed pointer :
  installed_section lines = Ok (installed, pointer) ->
  Forall (fun p => state p = Installed) installed.
Proof.
  unfold installed_section, mbind, result_bind.
  destruct (skip_loop _ _ _) as [pointer0| |]; [|done..].
  apply installed_loop_Installed. constructor.
Qed.

Lemma parseList_after_installed_section stdout installed pointer :
  installed_section (Js.split_lines stdout) = Ok (installed, pointer) ->
  parseList stdout
  = '(packages, _) ← available_loop (Js.split_lines stdout) installed pointer
                       (budget (Js.split_lines stdout));
    Ok packages.
Proof. intros Hinst. unfold parseList. by rewrite Hinst. Qed.

(** X7. The entries made from the installed section are all in state
    [Installed]. In the catalog that [parseList] returns they come
    first, in their order, each the same package as before (its
    [rawName], [name], [category], [description] and [details] kept) and
    either untouched or in state [Updateable]; the entries after them
    are in state [Available] or [Updateable]. *)
Theorem parseList_keeps_installed_entries (stdout : string)
    (installed packages : list Package) (pointer : nat) :
  installed_section (Js.split_lines stdout) = Ok (installed, pointer) ->
  parseList stdout = Ok packages ->
  Forall (fun p => state p = Installed) installed
  /\ exists kept added,
       packages = (kept ++ added)%list
       /\ Forall2 same_package installed kept
       /\ Forall (fun p => state p = Available \/ state p = Updateable) added.
Proof.
  intros Hinst Hrun. split; [by eapply installed_section_Installed|].
  rewrite (parseList_after_installed_section _ _ _ Hinst) in Hrun.
  unfold mbind, result_bind in Hrun.
  destruct (available_loop _ _ _ _) as [[packages' pointer']| |] eqn:Hav;
    [|done..].
  injection Hrun as <-. by eapply available_loop_keeps.
Qed.

Lemma parseList_keeps_installed_entries_witness :
  Forall (fun p => state p = Installed) [installed_a_x "1.0"]
  /\ exists kept added,
       [marked (installed_a_x "1.0") "1.0" "2.0"] = (kept ++ added)%list
       /\ Forall2 same_package [installed_a_x "1.0"] kept
       /\ Forall (fun p => state p = Available \/ state p = Updateable) added.
Proof.
  apply (parseList_keeps_installed_entries
           (merge_report "a;x| 1.0| desc" "a;x| 2.0| desc") _ _ 7%nat).
  - vm_compute. reflexivity.
  - vm_compute. reflexivity.
Defined.

(** ** checkDoneAsync *)

Lemma installed_section_no_header lines :
  Forall (fun line => Js.endsWith line "Installed packages:" = false) lines ->
  installed_section lines = Ok ([], length lines).
Proof.
  intros Hno. unfold installed_section, budget.
  rewrite (skip_loop_no_header lines 0) by (auto; lia).
  cbn [mbind result_bind]. by rewrite installed_loop_at_end.
Qed.

(** X8. When no line of the captured text ends with
    ["Installed packages:"], [checkDoneAsync] answers [false]. *)
Theorem checkDoneAsync_without_installed_header (std_out : string) :
  Forall (fun line => Js.endsWith line "Installed packages:" = false)
         (Js.split_lines std_out) ->
  checkDoneAsync std_out = Ok false.
Proof.
  intros Hno. unfold checkDoneAsync.
  rewrite (parseList_after_installed_section _ _ _
             (installed_section_no_header _ Hno)).
  unfold budget. rewrite available_loop_at_end by lia. reflexivity.
Qed.

Lemma checkDoneAsync_without_installed_header_witness :
  checkDoneAsync available_only_report = Ok false.
Proof.
  apply (checkDoneAsync_without_installed_header available_only_report).
  vm_compute. repeat constructor.
Defined.

(** X9. When the installed section yields at least one entry,
    [checkDoneAsync] answers [true], unless the available section makes
    [parseList] throw: the available section never shortens the
    catalog. *)
Theorem checkDoneAsync_with_installed_entry (std_out : string)
    (installed : list Package) (pointer : nat) :
  installed_section (Js.split_lines std_out) = Ok (installed, pointer) ->
  installed <> [] ->
  checkDoneAsync std_out = Ok true \/ checkDoneAsync std_out = TypeError.
Proof.
  intros Hinst Hne. unfold checkDoneAsync.
  pose proof (parseList_terminates std_out) as Hterm.
  rewrite (parseList_after_installed_section _ _ _ Hinst) in *.
  unfold mbind, result_bind in *.
  destruct (available_loop _ _ _ _) as [[packages pointer']| |] eqn:Hav;
    [|by right|done].
  left. apply available_loop_keeps in Hav as (kept & added & -> & Hkept & _).
  apply Forall2_length in Hkept.
  destruct installed; [done|]. destruct kept; [done|]. reflexivity.
Qed.

Lemma checkDoneAsync_with_installed_entry_witness :
  checkDoneAsync (merge_report "a;x| 1.0| desc" "a;x| 2.0| desc") = Ok true
  \/ checkDoneAsync (merge_report "a;x| 1.0| desc" "a;x| 2.0| desc")
     = TypeError.
Proof.
  apply (checkDoneAsync_with_installed_entry
           (merge_report "a;x| 1.0| desc" "a;x| 2.0| desc")
           [installed_a_x "1.0"] 7%nat).
  - vm_compute. reflexivity.
  - discriminate.
Defined.

(** ** The step budget *)

Lemma skip_loop_more_steps lines pointer steps k :
  skip_loop lines pointer steps <> OutOfSteps ->
  skip_loop lines pointer (k + steps) = skip_loop lines pointer steps.
Proof.
  revert pointer; induction steps as [|steps IH]; intros pointer; [done|].
  rewrite Nat.add_succ_r. cbn [skip_loop].
  destruct (_ <? _)%nat; [|done].
  destruct (lines !! pointer); [|done].
  destruct (Js.endsWith _ _); [done|]. apply IH.
Qed.

Lemma installed_loop_more_steps lines packages pointer steps k :
  installed_loop lines packages pointer steps <> OutOfSteps ->
  installed_loop lines packages pointer (k + steps)
  = installed_loop lines packages pointer steps.
Proof.
  revert packages pointer; induction steps as [|steps IH];
    intros packages pointer; [done|].
  rewrite Nat.add_succ_r. cbn [installed_loop].
  destruct (_ <? _)%nat; [|done].
  destruct (lines !! pointer); [|done].
  destruct (lines !! _); [|done].
  destruct (Js.startsWith _ _); [done|].
  destruct (new_Package _ _); [|done..].
  cbn [mbind result_bind]. apply IH.
Qed.

Lemma available_loop_more_steps lines packages pointer steps k :
  available_loop lines packages pointer steps <> OutOfSteps ->
  available_loop lines packages pointer (k + steps)
  = available_loop lines packages pointer steps.
Proof.
  revert packages pointer; induction steps as [|steps IH];
    intros packages pointer; [done|].
  rewrite Nat.add_succ_r. cbn [available_loop].
  destruct (_ <? _)%nat; [|done].
  destruct (lines !! pointer) as [line|]; [|done].
  destruct (String.eqb line ""); [apply IH|].
  destruct (Js.startsWith _ _); [done|].
  destruct (merge_elements _ _); [|done..].
  cbn [mbind result_bind]. apply IH.
Qed.

Lemma parseList_steps_enough steps stdout :
  (budget (Js.split_lines stdout) <= steps)%nat ->
  parseList_steps steps stdout = parseList stdout.
Proof.
  intros Hle. unfold parseList_steps, parseList, installed_section.
  set (lines := Js.split_lines stdout) in *.
  replace steps with ((steps - budget lines) + budget lines)%nat by lia.
  generalize (steps - budget lines)%nat as k. intros k.
  rewrite skip_loop_more_steps
    by (apply skip_loop_in_budget; unfold budget; lia).
  destruct (skip_loop lines 0 (budget lines)) as [pointer| |]; [|done..].
  cbn [mbind result_bind].
  rewrite installed_loop_more_steps
    by (apply installed_loop_in_budget; unfold budget; lia).
  destruct (installed_loop lines [] pointer (budget lines))
    as [[packages pointer']| |]; [|done..].
  cbn [mbind result_bind].
  rewrite available_loop_more_steps
    by (apply available_loop_in_budget; unfold budget; lia).
  reflexivity.
Qed.

(** X10. [parseList] comes to an end on every input: each of its loops
    runs at most once per line and once more. With one step per line and
    one more the call has returned a catalog or thrown, and a larger
    allowance of steps changes nothing. *)
Theorem parseList_within_budget (steps : nat) (stdout : string) :
  (length (Js.split_lines stdout) < steps)%nat ->
  parseList_steps steps stdout = parseList stdout
  /\ ((exists packages, parseList stdout = Ok packages)
      \/ parseList stdout = TypeError).
Proof.
  intros Hlt. split; [apply parseList_steps_enough; unfold budget; lia|].
  pose proof (parseList_terminates stdout) as Hterm.
  destruct (parseList stdout) as [packages| |]; [left; by eexists|by right|done].
Qed.

Lemma parseList_within_budget_witness :
  parseList_steps 100 installed_only_report = parseList installed_only_report
  /\ ((exists packages, parseList installed_only_report = Ok packages)
      \/ parseList installed_only_report = TypeError).
Proof.
  apply (parseList_within_budget 100 installed_only_report).
  vm_compute. lia.
Defined.

(** ** Text before the installed header *)

Lemma lookup_below (pre post : list string) p :
  (pre ++ post)%list !! (length pre + p)%nat = post !! p.
Proof. rewrite lookup_app_r by lia. f_equal. lia. Qed.

Lemma ltb_below (pre post : list string) p :
  (length pre + p <? length (pre ++ post)%list)%nat = (p <? length post)%nat.
Proof.
  rewrite length_app.
  destruct (Nat.ltb_spec (length pre + p) (length pre + length post)),
           (Nat.ltb_spec p (length post)); done || lia.
Qed.

Lemma skip_loop_below pre post p steps :
  skip_loop (pre ++ post) (length pre + p) steps
  = lower_cursor (length pre) (skip_loop post p steps).
Proof.
  revert p; induction steps as [|steps IH]; intros p; [done|].
  cbn [skip_loop]. rewrite ltb_below, lookup_below.
  destruct (_ <? _)%nat; [|done].
  destruct (post !! p) as [line|]; [|done].
  destruct (Js.endsWith _ _); [simpl; f_equal; lia|].
  rewrite <- IH. f_equal. lia.
Qed.

Lemma installed_loop_below pre post packages p steps :
  installed_loop (pre ++ post) packages (length pre + p) steps
  = lower_catalog_cursor (length pre) (installed_loop post packages p steps).
Proof.
  revert packages p; induction steps as [|steps IH]; intros packages p;
    [done|].
  cbn [installed_loop]. rewrite ltb_below, lookup_below.
  destruct (_ <? _)%nat; [|done].
  destruct (post !! p) as [line0|]; [|done].
  assert ((if String.eqb line0 "" then (length pre + p + 1)%nat
           else (length pre + p)%nat)
          = (length pre + (if String.eqb line0 "" then p + 1 else p))%nat)
    as -> by (destruct (String.eqb line0 ""); lia).
  rewrite lookup_below.
  destruct (post !! _) as [line|]; [|done].
  destruct (Js.startsWith _ _); [simpl; do 2 f_equal; lia|].
  destruct (new_Package _ _) as [pk| |]; [|done..].
  cbn [mbind result_bind]. rewrite <- IH. f_equal. lia.
Qed.

Lemma available_loop_below pre post packages p steps :
  available_loop (pre ++ post) packages (length pre + p) steps
  = lower_catalog_cursor (length pre) (available_loop post packages p steps).
Proof.
  revert packages p; induction steps as [|steps IH]; intros packages p;
    [done|].
  cbn [available_loop]. rewrite ltb_below, lookup_below.
  destruct (_ <? _)%nat; [|done].
  destruct (post !! p) as [line|]; [|done].
  destruct (String.eqb line ""); [rewrite <- IH; f_equal; lia|].
  destruct (Js.startsWith _ _); [simpl; do 2 f_equal; lia|].
  destruct (merge_elements _ _) as [pk| |]; [|done..].
  cbn [mbind result_bind]. rewrite <- IH. f_equal. lia.
Qed.

Lemma skip_loop_preamble pre post n steps :
  Forall (fun line => Js.endsWith line "Installed packages:" = false) pre ->
  (n <= length pre)%nat ->
  skip_loop (pre ++ post) (length pre - n) (n + steps)
  = skip_loop (pre ++ post) (length pre) steps.
Proof.
  intros Hno. induction n as [|n IH]; intros Hle.
  - by rewrite Nat.sub_0_r.
  - cbn [Nat.add skip_loop]. rewrite length_app.
    destruct (Nat.ltb_spec (length pre - S n) (length pre + length post));
      [|lia].
    destruct (lookup_lt_is_Some_2 pre (length pre - S n)) as [line Hline];
      [lia|].
    rewrite (lookup_app_l_Some _ _ _ _ Hline).
    rewrite Forall_forall in Hno.
    rewrite (Hno line) by (eapply list_elem_of_lookup_2; eauto).
    replace (length pre - S n + 1)%nat with (length pre - n)%nat by lia.
    apply IH. lia.
Qed.

Lemma parseList_lines_preamble pre post :
  Forall (fun line => Js.endsWith line "Installed packages:" = false) pre ->
  ('(packages, pointer) ← installed_section (pre ++ post);
   '(packages, _) ← available_loop (pre ++ post) packages pointer
                       (budget (pre ++ post));
   Ok packages)
  = ('(packages, pointer) ← installed_section post;
     '(packages, _) ← available_loop post packages pointer (budget post);
     Ok packages).
Proof.
  intros Hno. unfold installed_section.
  assert (budget (pre ++ post) = (length pre + budget post)%nat) as ->.
  { unfold budget. rewrite length_app. lia. }
  pose proof (skip_loop_preamble pre post (length pre) (budget post) Hno)
    as Hskip.
  rewrite Nat.sub_diag in Hskip. rewrite Hskip by lia. clear Hskip.
  pose proof (skip_loop_below pre post 0 (budget post)) as Hbelow.
  rewrite Nat.add_0_r in Hbelow. rewrite Hbelow. clear Hbelow.
  destruct (skip_loop post 0 (budget post)) as [pointer| |]; [|done..].
  cbn [lower_cursor mbind result_bind].
  pose proof (installed_loop_in_budget post [] pointer (budget post)) as Hin.
  rewrite installed_loop_more_steps; rewrite installed_loop_below;
    [|destruct (installed_loop post [] pointer (budget post)) as [[? ?]| |];
      [done|done|exfalso; apply Hin; [unfold budget; lia|done]]].
  destruct (installed_loop post [] pointer (budget post))
    as [[packages pointer']| |]; [|done..].
  cbn [lower_catalog_cursor mbind result_bind].
  pose proof (available_loop_in_budget post packages pointer' (budget post))
    as Hav.
  rewrite available_loop_more_steps; rewrite available_loop_below;
    [|destruct (available_loop post packages pointer' (budget post))
        as [[? ?]| |];
      [done|done|exfalso; apply Hav; [unfold budget; lia|done]]].
  by destruct (available_loop post packages pointer' (budget post))
    as [[packages' pointer'']| |].
Qed.

(** X11. Lines in front of the report are ignored as long as none of
    them ends with ["Installed packages:"]: if the lines of [stdout] are
    such lines followed by the lines of [stdout'], [parseList] gives the
    same outcome on both texts. *)
Theorem parseList_ignores_preamble (stdout stdout' : string)
    (pre : list string) :
  Js.split_lines stdout = (pre ++ Js.split_lines stdout')%list ->
  Forall (fun line => Js.endsWith line "Installed packages:" = false) pre ->
  parseList stdout = parseList stdout'.
Proof.
  intros Hlines Hno. unfold parseList. rewrite Hlines.
  by apply parseList_lines_preamble.
Qed.

Lemma parseList_ignores_preamble_witness :
  parseList (report ["Loading package information..."; "";
                     "Installed packages:"; header_row; rule_row;
                     "a;x| 1.0| desc"])
  = parseList (report ["Installed packages:"; header_row; rule_row;
                       "a;x| 1.0| desc"]).
Proof.
  apply (parseList_ignores_preamble _ _
           ["Loading package information..."; ""]).
  - vm_compute. reflexivity.
  - vm_compute. repeat constructor.
Defined.

(** ** Line endings *)

Lemma split_lines_line line :
  no_line_break line = true -> Js.split_lines line = [line].
Proof.
  induction line as [|c t IH]; [done|].
  cbn [no_line_break Js.split_lines].
  intros [[Hlf Hcr]%andb_true_iff Ht]%andb_true_iff.
  apply negb_true_iff in Hlf, Hcr. rewrite Hlf, Hcr.
  destruct t as [|d t']; [done|]. cbn [andb].
  by rewrite (IH Ht).
Qed.

Lemma split_lines_line_then line (ending rest : string) :
  ending = String Js.LF EmptyString \/ ending = CRLF ->
  no_line_break line = true ->
  Js.split_lines (line ++ ending ++ rest) = line :: Js.split_lines rest.
Proof.
  intros Hending. induction line as [|c t IH].
  - intros _. by destruct Hending as [-> | ->].
  - cbn [no_line_break].
    intros [[Hlf Hcr]%andb_true_iff Ht]%andb_true_iff.
    apply negb_true_iff in Hlf, Hcr.
    change (String c t ++ ending ++ rest)
      with (String c (t ++ ending ++ rest)).
    specialize (IH Ht). cbn [Js.split_lines]. rewrite Hlf, Hcr. cbn [andb].
    destruct (t ++ ending ++ rest) as [|d t'] eqn:Happ.
    + destruct t; [|done]. by destruct Hending as [-> | ->].
    + by rewrite IH.
Qed.

Lemma join_cons ending line line' lines :
  Js.join ending (line :: line' :: lines)
  = line ++ ending ++ Js.join ending (line' :: lines).
Proof. reflexivity. Qed.

Lemma split_lines_join (ending : string) lines :
  ending = String Js.LF EmptyString \/ ending = CRLF ->
  Forall (fun line => no_line_break line = true) lines ->
  lines <> [] ->
  Js.split_lines (Js.join ending lines) = lines.
Proof.
  intros Hending Hall. induction Hall as [|line lines Hline Hall IH]; [done|].
  intros _. destruct lines as [|line' lines]; [by apply split_lines_line|].
  rewrite join_cons, split_lines_line_then by done.
  by rewrite IH.
Qed.

(** X12. A report parses the same with either line ending: for lines
    that hold no carriage return and no line feed, the text that joins
    them with CR LF and the text that joins them with LF give the same
    outcome. *)
Theorem parseList_line_endings (lines : list string) :
  Forall (fun line => no_line_break line = true) lines ->
  parseList (Js.join CRLF lines)
  = parseList (Js.join (String Js.LF EmptyString) lines).
Proof.
  intros Hall. destruct lines as [|line lines]; [done|].
  unfold parseList.
  by rewrite !split_lines_join by (done || auto).
Qed.

Lemma parseList_line_endings_witness :
  parseList (Js.join CRLF ["Installed packages:"; header_row; rule_row;
                           "a;x| 1.0| desc"])
  = parseList (Js.join (String Js.LF EmptyString)
                 ["Installed packages:"; header_row; rule_row;
                  "a;x| 1.0| desc"]).
Proof.
  apply (parseList_line_endings
           ["Installed packages:"; header_row; rule_row;
            "a;x| 1.0| desc"]).
  vm_compute. repeat constructor.
Defined.

(** ** parsePackageName *)

Lemma split_char_cons (sep c : ascii) t :
  Js.split (String sep EmptyString) (String c t)
  = if Ascii.eqb c sep then EmptyString :: Js.split (String sep EmptyString) t
    else Js.push_front c (Js.split (String sep EmptyString) t).
Proof.
  unfold Js.split. cbn [Js.split_from Js.startsWith String.length Nat.pred].
  rewrite (Ascii.eqb_sym sep c), andb_true_r. reflexivity.
Qed.

Lemma split_char_inv sep t :
  exists first rest, Js.split sep t = first :: rest.
Proof.
  pose proof (split_from_nonempty sep 0 t) as Hne. unfold Js.split.
  destruct (Js.split_from sep 0 t) as [|z rest]; [done|]. by exists z, rest.
Qed.

Lemma includes_char_cons (sep c : ascii) t :
  includes (String c t) (String sep EmptyString)
  = Ascii.eqb c sep || includes t (String sep EmptyString).
Proof.
  cbn [includes Js.startsWith].
  by rewrite (Ascii.eqb_sym sep c), andb_true_r.
Qed.

Lemma split_char_none (sep : ascii) s :
  includes s (String sep EmptyString) = false ->
  Js.split (String sep EmptyString) s = [s].
Proof.
  induction s as [|c t IH]; [done|].
  rewrite includes_char_cons, split_char_cons.
  intros [-> Hrest]%orb_false_elim. by rewrite (IH Hrest).
Qed.

Lemma split_char_app (sep : ascii) a t :
  Js.split (String sep EmptyString) (a ++ String sep t)
  = (Js.split (String sep EmptyString) a
     ++ Js.split (String sep EmptyString) t)%list.
Proof.
  induction a as [|c a IH].
  { change ("" ++ String sep t) with (String sep t).
    by rewrite split_char_cons, Ascii.eqb_refl. }
  change (String c a ++ String sep t) with (String c (a ++ String sep t)).
  rewrite !split_char_cons, IH.
  destruct (Ascii.eqb c sep); [done|].
  destruct (split_char_inv (String sep EmptyString) a) as (z & rest & ->).
  done.
Qed.

(** X13. A name without a semicolon is its own category and display
    name; a name of two segments, the second not empty, is taken apart
    into category and display name. *)
Theorem parsePackageName_segments :
  (forall raw : string,
      includes raw ";" = false -> parsePackageName raw = (raw, raw))
  /\ (forall cat nm : string,
         includes cat ";" = false -> includes nm ";" = false ->
         nm <> "" ->
         parsePackageName (cat ++ ";" ++ nm) = (nm, cat)).
Proof.
  split.
  - intros raw Hraw. unfold parsePackageName.
    by rewrite (split_char_none ";" raw Hraw).
  - intros cat nm Hcat Hnm Hne. unfold parsePackageName.
    change (cat ++ ";" ++ nm) with (cat ++ String ";" nm).
    rewrite (split_char_app ";"), (split_char_none ";" cat Hcat),
      (split_char_none ";" nm Hnm).
    simpl. apply String.eqb_neq in Hne. by rewrite Hne.
Qed.

Lemma parsePackageName_segments_witness :
  parsePackageName "tools" = ("tools", "tools")
  /\ parsePackageName ("platforms" ++ ";" ++ "android-30")
     = ("android-30", "platforms").
Proof.
  split.
  - apply (proj1 parsePackageName_segments "tools"). reflexivity.
  - apply (proj2 parsePackageName_segments "platforms" "android-30").
    + reflexivity.
    + reflexivity.
    + discriminate.
Defined.

Lemma split_char_first (sep : ascii) s first rest :
  Js.split (String sep EmptyString) s = first :: rest ->
  includes first (String sep EmptyString) = false
  /\ Js.startsWith s first = true.
Proof.
  revert first rest; induction s as [|c t IH]; intros first rest.
  { by intros [= <- <-]. }
  rewrite split_char_cons.
  destruct (Ascii.eqb c sep) eqn:Hc; [by intros [= <- <-]|].
  destruct (split_char_inv (String sep EmptyString) t) as (z & zs & Hsplit).
  rewrite Hsplit. intros [= <- <-].
  destruct (IH z zs Hsplit) as [Hz Hstart].
  rewrite includes_char_cons, Hc, Hz. split; [done|].
  cbn [Js.startsWith]. by rewrite Ascii.eqb_refl, Hstart.
Qed.

(** X14. The category that [parsePackageName] returns holds no
    semicolon, and the name it was given starts with it. *)
Theorem parsePackageName_category (raw : string) :
  includes (snd (parsePackageName raw)) ";" = false
  /\ Js.startsWith raw (snd (parsePackageName raw)) = true.
Proof.
  unfold parsePackageName.
  destruct (split_char_inv ";" raw) as (first & rest & Hsplit).
  rewrite Hsplit. simpl. by apply (split_char_first ";" raw first rest).
Qed.

(** ** checkLicenseAsync *)

Lemma startsWith_same_length s p :
  Js.startsWith s p = true -> String.length s = String.length p -> s = p.
Proof.
  revert s; induction p as [|c p IH]; intros [|d s]; simpl; try done.
  intros [Hc Hs]%andb_true_iff [= Hlen].
  apply Ascii.eqb_eq in Hc as ->. by rewrite (IH s).
Qed.

Lemma test_license_spec file :
  test_license file = true <-> file = "android-sdk-license".
Proof.
  unfold test_license. split.
  - intros [Hstart Hlen%Nat.eqb_eq]%andb_true_iff.
    by apply startsWith_same_length.
  - by intros ->.
Qed.

(** X15. [checkLicenseAsync] answers [true] exactly when the directory
    could be read and one of its entries is named [android-sdk-license],
    letter for letter and nothing more; a directory that cannot be read
    counts as one without a license. *)
Theorem checkLicenseAsync_exact_name (readdir : option (list string)) :
  checkLicenseAsync readdir = true
  <-> exists files, readdir = Some files /\ "android-sdk-license" ∈ files.
Proof.
  unfold checkLicenseAsync.
  destruct (list_find _ _) as [[i file]|] eqn:Hfind.
  - apply list_find_Some in Hfind as (Hfile & Htest%test_license_spec & _).
    subst file. split; [intros _|done].
    destruct readdir as [files|]; [|done].
    exists files. split; [done|]. by eapply list_elem_of_lookup_2.
  - apply list_find_None in Hfind. split; [done|].
    intros (files & -> & Hin). rewrite Forall_forall in Hfind.
    exfalso. apply (Hfind _ Hin). by apply test_license_spec.
Qed.

Example checkLicenseAsync_other_names :
  checkLicenseAsync (Some ["android-sdk-license.bak";
                           "android-sdk-preview-license";
                           "Android-SDK-License"]) = false.
Proof. reflexivity. Qed.

(** ** Merging rows that bring nothing new *)

Lemma cmpVersions_same_modulo_zero pv rv :
  rv = pv \/ rv = pv ++ ".0" \/ pv = rv ++ ".0" ->
  cmpVersions pv rv = 0.
Proof.
  rewrite cmpVersions_compare.
  assert (forall sa, Comparator.compare sa sa = 0) as Hrefl.
  { intros sa. pose proof (compare_swap sa sa). lia. }
  intros [-> | [-> | ->]]; by rewrite ?segments_zero_suffix.
Qed.

(** X16. An available row whose version is that of the entry of its
    name, or differs from it by a [".0"] at the end, leaves the catalog
    as it was: no entry is marked and none is added. *)
Theorem merge_same_version (packages : list Package) (elements : list string)
    (raw rv pv : string) (index : nat) (p : Package) :
  elements !! 0%nat = Some raw ->
  elements !! 1%nat = Some rv ->
  packages !! index = Some p ->
  rawName p = raw ->
  (forall j q, (j < index)%nat -> packages !! j = Some q -> rawName q <> raw) ->
  version p = Some pv ->
  rv = pv \/ rv = pv ++ ".0" \/ pv = rv ++ ".0" ->
  merge_elements packages elements = Ok packages.
Proof.
  intros H0 H1 Hp Hraw Hfirst Hpv Hsame.
  unfold merge_elements. rewrite H0, H1.
  rewrite (find_first_by_rawName packages raw index p) by done.
  by rewrite Hpv, (cmpVersions_same_modulo_zero pv rv Hsame).
Qed.

Lemma merge_same_version_witness :
  merge_elements [installed_a_x "28.0"] (elements_of "a;x| 28.0.0| desc")
  = Ok [installed_a_x "28.0"].
Proof.
  apply (merge_same_version [installed_a_x "28.0"]
           (elements_of "a;x| 28.0.0| desc") "a;x" "28.0.0" "28.0" 0%nat
           (installed_a_x "28.0")).
  - reflexivity.
  - reflexivity.
  - reflexivity.
  - reflexivity.
  - intros j q Hj. lia.
  - reflexivity.
  - right. left. reflexivity.
Defined.

(** ** The order that sort leaves *)

Lemma nat_of_ascii_inj c d : nat_of_ascii c = nat_of_ascii d -> c = d.
Proof.
  intros Heq. rewrite <- (ascii_nat_embedding c), <- (ascii_nat_embedding d).
  by rewrite Heq.
Qed.

Lemma lt_string_total a b :
  Js.lt_string a b = false -> Js.lt_string b a = false -> a = b.
Proof.
  revert b; induction a as [|c a IH]; intros [|d b]; simpl; try done.
  destruct (Nat.ltb_spec (nat_of_ascii c) (nat_of_ascii d)),
           (Nat.ltb_spec (nat_of_ascii d) (nat_of_ascii c));
    try done; try lia.
  intros Hab Hba. rewrite (IH b Hab Hba). f_equal.
  apply nat_of_ascii_inj. lia.
Qed.

Lemma Array_sort_sorted_as order contents :
  StronglySorted (sorted_as order) (Array_sort (sort_compare order) contents).
Proof.
  apply fold_insert_by_StronglySorted; [| | |constructor];
    unfold sorted_as, sort_compare, ascending, descending, sort_key;
    destruct (decide (order = Some "asc")) as [->|Hne]; simpl.
  - intros a b c Hab Hbc. eapply not_lt_string_trans; eauto.
  - intros a b c Hab Hbc. eapply not_lt_string_trans; eauto.
  - intros x y. destruct (Js.lt_string _ _) eqn:Hlt; [|lia].
    intros _. by apply lt_string_asym.
  - intros x y.
    replace (default "desc" order =? "asc")%string with false.
    2:{ symmetry. apply String.eqb_neq. destruct order; simpl; congruence. }
    destruct (Js.lt_string _ _) eqn:Hlt; [lia|done].
  - intros x y. destruct (Js.lt_string _ _) eqn:Hlt; [lia|done].
  - intros x y.
    replace (default "desc" order =? "asc")%string with false.
    2:{ symmetry. apply String.eqb_neq. destruct order; simpl; congruence. }
    destruct (Js.lt_string _ _) eqn:Hlt; [|lia].
    intros _. by apply lt_string_asym.
Qed.

Lemma Array_sort_Permutation order contents :
  Permutation contents (Array_sort (sort_compare order) contents).
Proof. apply (fold_insert_by_Permutation _ contents []). Qed.

Lemma same_key_same_package (l : list Package) p q :
  NoDup (sort_key <$> l) -> p ∈ l -> q ∈ l -> sort_key p = sort_key q -> p = q.
Proof.
  induction l as [|x l IH]; [by intros _ ?%elem_of_nil|].
  rewrite fmap_cons, NoDup_cons, !elem_of_cons.
  intros [Hx Hnd] [->|Hp] [->|Hq] Hkey; try done.
  - exfalso. apply Hx. rewrite Hkey. by apply list_elem_of_fmap_2.
  - exfalso. apply Hx. rewrite <- Hkey. by apply list_elem_of_fmap_2.
  - by apply IH.
Qed.

Lemma sorted_as_antisym order p q :
  sorted_as order p q -> sorted_as order q p -> sort_key p = sort_key q.
Proof.
  unfold sorted_as, ascending, descending.
  destruct (decide _); intros Hpq Hqp; by apply lt_string_total.
Qed.

Lemma sorted_arrangement_unique order (l1 l2 : list Package) :
  NoDup (sort_key <$> l1) ->
  Permutation l1 l2 ->
  StronglySorted (sorted_as order) l1 ->
  StronglySorted (sorted_as order) l2 ->
  l1 = l2.
Proof.
  revert l2; induction l1 as [|x l1 IH]; intros l2 Hnd Hperm Hs1 Hs2.
  { by apply Permutation_nil in Hperm. }
  destruct l2 as [|y l2].
  { symmetry in Hperm. by apply Permutation_nil in Hperm. }
  assert (x = y) as ->.
  { apply (same_key_same_package (x :: l1)); [done|by left| |].
    - rewrite Hperm. by left.
    - apply StronglySorted_inv in Hs1 as [_ Hx].
      apply StronglySorted_inv in Hs2 as [_ Hy].
      rewrite Forall_forall in Hx, Hy.
      assert (y ∈ x :: l1) as Hyin by (rewrite Hperm; by left).
      assert (x ∈ y :: l2) as Hxin by (rewrite <- Hperm; by left).
      apply elem_of_cons in Hyin as [->|Hyin]; [done|].
      apply elem_of_cons in Hxin as [->|Hxin]; [done|].
      apply (sorted_as_antisym order); [by apply Hx|by apply Hy]. }
  f_equal. apply IH.
  - rewrite fmap_cons in Hnd. by apply NoDup_cons in Hnd as [_ ?].
  - by apply Permutation_cons_inv in Hperm.
  - by apply StronglySorted_inv in Hs1 as [? _].
  - by apply StronglySorted_inv in Hs2 as [? _].
Qed.

(** X17. When the lower-cased names in the array are pairwise different,
    the array after [sort] is the one arrangement of its packages that is
    in the order asked for; the result does not hang on the sorting
    method of the engine. *)
Theorem sort_result_unique (h : store) (packages : nat)
    (order : option string) (contents arranged : list Package) :
  h !! packages = Some contents ->
  NoDup (sort_key <$> contents) ->
  Permutation contents arranged ->
  StronglySorted (sorted_as order) arranged ->
  sort h packages order = Ok (<[packages := arranged]> h, packages).
Proof.
  intros Hlookup Hnd Hperm Hsorted. unfold sort. rewrite Hlookup.
  do 3 f_equal. apply (sorted_arrangement_unique order).
  - by rewrite <- (Array_sort_Permutation order contents).
  - by rewrite <- (Array_sort_Permutation order contents).
  - apply Array_sort_sorted_as.
  - done.
Qed.

Lemma sort_result_unique_witness :
  sort {[ 7%nat := [named "b"; named "A"; named "c"] ]} 7%nat (Some "asc")
  = Ok (<[7%nat := [named "A"; named "b"; named "c"]]>
          {[ 7%nat := [named "b"; named "A"; named "c"] ]}, 7%nat).
Proof.
  apply (sort_result_unique {[ 7%nat := [named "b"; named "A"; named "c"] ]}
           7%nat (Some "asc") [named "b"; named "A"; named "c"]
           [named "A"; named "b"; named "c"]).
  - reflexivity.
  - apply (bool_decide_unpack _). vm_compute. reflexivity.
  - apply perm_swap.
  - repeat constructor.
Defined.

Lemma StronglySorted_reverse_flip {A : Type} (R : A -> A -> Prop) l :
  StronglySorted R l -> StronglySorted (flip R) (reverse l).
Proof.
  induction 1 as [|x l Hsorted IH Hall]; [constructor|].
  rewrite reverse_cons. apply StronglySorted_app_2; [|done|].
  - intros x1 x2 Hx1 ->%list_elem_of_singleton.
    rewrite elem_of_reverse in Hx1.
    unfold flip. rewrite Forall_forall in Hall. by apply Hall.
  - repeat constructor.
Qed.

(** X18. When the lower-cased names in the array are pairwise different,
    sorting with any flag other than ['asc'], or with none, leaves the
    array in the reverse of the order that ['asc'] leaves. *)
Theorem sort_descending_reverses (h : store) (packages : nat)
    (order : option string) (contents : list Package) :
  h !! packages = Some contents ->
  NoDup (sort_key <$> contents) ->
  order <> Some "asc" ->
  exists sorted,
    sort h packages (Some "asc") = Ok (<[packages := sorted]> h, packages)
    /\ sort h packages order = Ok (<[packages := reverse sorted]> h, packages).
Proof.
  intros Hlookup Hnd Horder.
  exists (Array_sort (sort_compare (Some "asc")) contents).
  unfold sort. rewrite Hlookup. split; [done|]. do 3 f_equal.
  apply (sorted_arrangement_unique order).
  - by rewrite <- (Array_sort_Permutation order contents).
  - rewrite reverse_Permutation.
    by rewrite <- !Array_sort_Permutation.
  - apply Array_sort_sorted_as.
  - pose proof (Array_sort_sorted_as (Some "asc") contents) as Hasc.
    apply StronglySorted_reverse_flip in Hasc.
    unfold sorted_as in *.
    destruct (decide (order = Some "asc")); [done|].
    by destruct (decide (Some "asc" = Some "asc")).
Qed.

Lemma sort_descending_reverses_witness :
  exists sorted,
    sort {[ 7%nat := [named "b"; named "A"; named "c"] ]} 7%nat (Some "asc")
    = Ok (<[7%nat := sorted]> {[ 7%nat := [named "b"; named "A"; named "c"] ]},
          7%nat)
    /\ sort {[ 7%nat := [named "b"; named "A"; named "c"] ]} 7%nat None
       = Ok (<[7%nat := reverse sorted]>
               {[ 7%nat := [named "b"; named "A"; named "c"] ]}, 7%nat).
Proof.
  apply (sort_descending_reverses
           {[ 7%nat := [named "b"; named "A"; named "c"] ]} 7%nat None
           [named "b"; named "A"; named "c"]).
  - reflexivity.
  - apply (bool_decide_unpack _). vm_compute. reflexivity.
  - discriminate.
Defined.

(** ** Rows with more or fewer fields *)

(** X19. A fourth field is ignored: a row of four fields without
    delimiter in them gives the same new entry, and merges into a catalog
    in the same way, as the row of its first three. *)
Theorem record_ignores_fourth_field (st : InstallStates)
    (packages : list Package) (A B C D : string) :
  includes A "| " = false ->
  includes B "| " = false ->
  includes C "| " = false ->
  includes D "| " = false ->
  new_Package st (elements_of (A ++ "| " ++ B ++ "| " ++ C ++ "| " ++ D))
  = new_Package st (elements_of (A ++ "| " ++ B ++ "| " ++ C))
  /\ merge_elements packages
       (elements_of (A ++ "| " ++ B ++ "| " ++ C ++ "| " ++ D))
     = merge_elements packages (elements_of (A ++ "| " ++ B ++ "| " ++ C)).
Proof.
  intros HA HB HC HD. rewrite (elements_of_three_fields A B C) by done.
  unfold elements_of.
  rewrite (split_bar_field A), (split_bar_field B), (split_bar_field C),
    (split_bar_none D) by done.
  done.
Qed.

Lemma record_ignores_fourth_field_witness :
  new_Package Installed
    (elements_of ("  tools " ++ "| " ++ "26.1.1 " ++ "| "
                  ++ "Android SDK Tools " ++ "| " ++ "tools/"))
  = new_Package Installed
      (elements_of ("  tools " ++ "| " ++ "26.1.1 " ++ "| "
                    ++ "Android SDK Tools "))
  /\ merge_elements []
       (elements_of ("  tools " ++ "| " ++ "26.1.1 " ++ "| "
                     ++ "Android SDK Tools " ++ "| " ++ "tools/"))
     = merge_elements []
         (elements_of ("  tools " ++ "| " ++ "26.1.1 " ++ "| "
                       ++ "Android SDK Tools ")).
Proof.
  apply (record_ignores_fourth_field Installed [] "  tools " "26.1.1 "
           "Android SDK Tools " "tools/"); reflexivity.
Defined.

(** X20. A row of a name that the catalog already holds makes the merge
    throw when the entry of that name has no version or the row has no
    second field: [cmpVersions] is handed [undefined]. *)
Theorem merge_throws_without_version (packages : list Package)
    (elements : list string) (raw : string) (index : nat) (p : Package) :
  elements !! 0%nat = Some raw ->
  packages !! index = Some p ->
  rawName p = raw ->
  (forall j q, (j < index)%nat -> packages !! j = Some q -> rawName q <> raw) ->
  version p = None \/ elements !! 1%nat = None ->
  merge_elements packages elements = TypeError.
Proof.
  intros H0 Hp Hraw Hfirst Hnone.
  unfold merge_elements. rewrite H0.
  rewrite (find_first_by_rawName packages raw index p) by done.
  destruct Hnone as [-> | ->]; [done|]. by destruct (version p).
Qed.

Lemma merge_throws_without_version_witness :
  merge_elements [installed_a_x "1.0"] (elements_of "a;x") = TypeError.
Proof.
  apply (merge_throws_without_version [installed_a_x "1.0"]
           (elements_of "a;x") "a;x" 0%nat (installed_a_x "1.0")).
  - reflexivity.
  - reflexivity.
  - reflexivity.
  - intros j q Hj. lia.
  - right. reflexivity.
Defined.

(** X21. A row without a delimiter gives an entry named by the row, with
    no version and no description. *)
Theorem record_of_one_field (st : InstallStates) (line : string) :
  includes line "| " = false ->
  exists p,
    new_Package st (elements_of line) = Ok p
    /\ rawName p = Js.trim line
    /\ version p = None
    /\ description p = None
    /\ state p = st.
Proof.
  intros Hline. unfold elements_of, new_Package.
  rewrite (split_bar_none line Hline). cbn [map lookup list_lookup].
  destruct (parsePackageName (Js.trim line)). by eexists.
Qed.

Lemma record_of_one_field_witness :
  exists p,
    new_Package Installed (elements_of "  tools") = Ok p
    /\ rawName p = Js.trim "  tools"
    /\ version p = None
    /\ description p = None
    /\ state p = Installed.
Proof.
  apply (record_of_one_field Installed "  tools"). reflexivity.
Defined.

(** ** White space around names *)

Lemma rev_app_snoc s c acc :
  String.rev_app (s ++ String c EmptyString) acc
  = String c (String.rev_app s acc).
Proof.
  revert acc; induction s as [|d s IH]; intros acc; [done|].
  simpl. apply IH.
Qed.

Lemma string_app_assoc (a b c : string) : (a ++ b) ++ c = a ++ b ++ c.
Proof.
  induction a as [|x a IH]; [done|].
  change (String x ((a ++ b) ++ c) = String x (a ++ b ++ c)). by f_equal.
Qed.

Lemma rev_app_acc s acc :
  String.rev_app s acc = String.rev_app s EmptyString ++ acc.
Proof.
  revert acc; induction s as [|d s IH]; intros acc; [done|].
  simpl. rewrite (IH (String d acc)), (IH (String d EmptyString)).
  by rewrite string_app_assoc.
Qed.

Lemma rev_cons c s :
  String.rev (String c s) = String.rev s ++ String c EmptyString.
Proof. unfold String.rev. simpl. apply rev_app_acc. Qed.

Lemma rev_snoc s c :
  String.rev (s ++ String c EmptyString) = String c (String.rev s).
Proof. apply rev_app_snoc. Qed.

Lemma rev_involutive s : String.rev (String.rev s) = s.
Proof.
  induction s as [|c s IH]; [done|]. by rewrite rev_cons, rev_snoc, IH.
Qed.

Lemma trimStart_idempotent s : Js.trimStart (Js.trimStart s) = Js.trimStart s.
Proof.
  induction s as [|c s IH]; [done|]. simpl.
  destruct (Js.isWhiteSpace c) eqn:Hc; [done|]. simpl. by rewrite Hc.
Qed.

Lemma trimStart_head s c t :
  Js.trimStart s = String c t -> Js.isWhiteSpace c = false.
Proof.
  induction s as [|d s IH]; [done|]. simpl.
  destruct (Js.isWhiteSpace d) eqn:Hd; [done|]. by intros [= <- _].
Qed.

Lemma trimStart_snoc x c :
  Js.isWhiteSpace c = false ->
  exists y, Js.trimStart (x ++ String c EmptyString) = y ++ String c EmptyString.
Proof.
  intros Hc. induction x as [|d x IH].
  - exists EmptyString. simpl. by rewrite Hc.
  - simpl. destruct (Js.isWhiteSpace d); [done|]. by exists (String d x).
Qed.

Lemma trimEnd_head c t :
  Js.isWhiteSpace c = false ->
  exists t', Js.trimEnd (String c t) = String c t'.
Proof.
  intros Hc. unfold Js.trimEnd. rewrite rev_cons.
  destruct (trimStart_snoc (String.rev t) c Hc) as [y ->].
  rewrite rev_snoc. by eexists.
Qed.

Lemma trimEnd_idempotent s : Js.trimEnd (Js.trimEnd s) = Js.trimEnd s.
Proof.
  unfold Js.trimEnd. by rewrite rev_involutive, trimStart_idempotent.
Qed.

Lemma trim_idempotent s : Js.trim (Js.trim s) = Js.trim s.
Proof.
  unfold Js.trim.
  assert (Js.trimStart (Js.trimEnd (Js.trimStart s))
          = Js.trimEnd (Js.trimStart s)) as ->.
  { destruct (Js.trimStart s) as [|c t] eqn:Hs; [done|].
    destruct (trimEnd_head c t (trimStart_head s c t Hs)) as [t' ->].
    simpl. by rewrite (trimStart_head s c t Hs). }
  apply trimEnd_idempotent.
Qed.

Lemma elements_of_trimmed line i e :
  elements_of line !! i = Some e -> Js.trim e = e.
Proof.
  unfold elements_of.
  change (map Js.trim (Js.split "| " line))
    with (Js.trim <$> Js.split "| " line).
  rewrite list_lookup_fmap.
  destruct (Js.split "| " line !! i); [|done].
  intros [= <-]. apply trim_idempotent.
Qed.

(** X22. In every catalog that [parseList] returns, no [rawName] has
    white space at either end: trimming it changes nothing. *)
Theorem parseList_rawName_trimmed (stdout : string) (packages : list Package) :
  parseList stdout = Ok packages ->
  Forall (fun p => Js.trim (rawName p) = rawName p) packages.
Proof.
  apply parseList_Forall.
  - intros st line p _ Hp. apply new_Package_rawName in Hp.
    by apply (elements_of_trimmed line 0).
  - intros p pv rv HP _ _. exact HP.
Qed.

Lemma parseList_rawName_trimmed_witness :
  Forall (fun p => Js.trim (rawName p) = rawName p)
         [ {| category := "tools"; name := "tools"; rawName := "tools";
              details := None; description := Some "Android SDK Tools";
              version := Some "26.1.1"; state := Installed |};
           {| category := "tools"; name := "tools"; rawName := "tools";
              details := None; description := Some "Android SDK Tools";
              version := Some "26.1.1"; state := Installed |} ].
Proof.
  apply (parseList_rawName_trimmed twice_installed_report).
  vm_compute. reflexivity.
Defined.
